(** * bitnomon: the series merge of [MainWindow.plotNetTotals], the request
    chain scheduler and the block-arrival observer of [main.py].

    Ages, timestamps of archive buckets and indices are Python integers
    ([Z] and [nat]); traffic values, averages and [time.time()] readings are
    Python numbers, taken here as exact rationals ([Q]).  The quotient in
    [plotNetTotals] is the true division of Python 3. *)

From Stdlib Require Import ZArith QArith List String Bool Arith Lia.
From Stdlib Require Import Ascii Qround Lqa.
Import ListNotations.
Open Scope Z_scope.

(** ** age.py *)

(** Modelled from the spec: [ageOfTime] lives in age.py, which is not part of
    the sources at hand.  The spec gives [age(now, t) = now - t]. *)
Definition ageOfTime (now t : Z) : Z := now - t.

(** ** rrdmodel.RRA *)

Module RRA.

(** Modelled from the spec: the class [rrdmodel.RRA] is not part of the
    sources at hand.  A buffer of fixed capacity holds optional raw values;
    logical index 0 is the most recently written sample and index [i] is
    [i] samples older; unfilled slots are absent ([None]). *)
Definition t : Type := list (option Q).

(** Modelled from the spec: [new(capacity)] is a buffer with all slots
    absent. *)
Definition new (capacity : nat) : t := repeat None capacity.

(** Modelled from the spec: [update(v)] appends and overwrites the oldest
    slot; it always succeeds and keeps the capacity. *)
Definition update (r : t) (v : Q) : t :=
  match r with
  | [] => []
  | _ :: _ => Some v :: removelast r
  end.

(** Modelled from the spec: reading slot [i].  Python raises [IndexError]
    past the capacity; [plotNetTotals] reads only below
    [len(trafPlotDomain)], which is one less than the capacity of the
    buffers that [_setupPlots] creates (see [getitem_in_range]). *)
Definition getitem (r : t) (i : nat) : option Q := nth i r None.

(** Modelled from the spec: [difference(i, j)] is [value[i] - value[j]], or
    absent if either operand is absent. *)
Definition difference (r : t) (i j : nat) : option Q :=
  match getitem r i, getitem r j with
  | Some a, Some b => Some (a - b)%Q
  | _, _ => None
  end.

(** Modelled from the spec: [differences(start)] is the sequence of
    [value[k] - value[k+1]] for [k] from [start] to [capacity - 2], of
    length [capacity - 1 - start]. *)
Definition differences (r : t) (start : nat) : list (option Q) :=
  map (fun k => difference r k (S k)) (seq start (List.length r - 1 - start)).

End RRA.

(** ** rrdmodel.RRDModel, through its read operation *)

(** One element of [trafRRD.fetch_all()]: [(t, values)] with
    [values = (recv, sent)], either of which may be [None]. *)
Record Bucket : Type := mkBucket {
  b_time : Z;
  b_values : option Q * option Q
}.

(** ** The part of [MainWindow] that handlers and the merge work on *)

(** What the chart and status collaborators are handed, in call order. *)
Inductive SinkEvent : Type :=
| LConns (n : Z)                                  (* ui.lConns.setText *)
| LBlocks (n : Z)                                 (* ui.lBlocks.setText *)
| TrafRecvPlot (ages : list Z) (ys : list (option Q))  (* trafRecvPlot.setData *)
| TrafSentPlot (ages : list Z) (ys : list (option Q))  (* trafSentPlot.setData *)
| StatusNetworkRTT (replies : list string)        (* statusNetwork.setText('RTT: ...') *)
| StatusNetworkError (err_str : string)          (* statusNetwork.setText('Network error: ...') *)
| StatusMissedSamples (n : nat)                   (* statusMissedSamples.setText *)
| Stderr (line : string)                          (* sys.stderr.write *)
| Traceback.                                      (* traceback.print_exc() *)

Record Core : Type := mkCore {
  trafRecv : RRA.t;
  trafSent : RRA.t;
  trafRRD : list Bucket;          (* what fetch_all() yields, in its order *)
  lastBlockCount : option Z;
  blockRecvTimes : RRA.t;
  sink : list SinkEvent
}.

(** ** _setupPlots *)

Definition poll_interval : Z := 1.
Definition traf_samples : nat := 600.
Definition traf_intervals : nat := traf_samples - 1.

Definition trafPlotDomain : list Z :=
  map (fun s => poll_interval * ageOfTime (Z.of_nat traf_intervals) (Z.of_nat s))
      (seq 1 traf_intervals).

(** ** plotNetTotals *)

Definition removeNone (v : option Q) : Q :=
  match v with None => 0%Q | Some x => x end.

Definition is_not_None (v : option Q) : bool :=
  match v with None => false | Some _ => true end.

(** The first loop: [(oldestFullResIndex, oldestFullResAge)] after it.  The
    loop variable keeps the last index tried when no slot is filled, and the
    age keeps its initial 0. *)
Fixpoint findOldestFullRes (r : RRA.t) (indices : list nat) (cur : nat)
  : nat * Z :=
  match indices with
  | [] => (cur, 0)
  | i :: rest =>
      if is_not_None (RRA.getitem r i)
      then (i, nth i trafPlotDomain 0)
      else findOldestFullRes r rest i
  end.

Definition oldestFullRes (r : RRA.t) : nat * Z :=
  findOldestFullRes r (seq 0 (List.length trafPlotDomain)) 0%nat.

(** The locals of the second loop: the three lists, and the loop variables
    [age] and [values] as the last iteration left them ([None] when the body
    never ran). *)
Record Averages : Type := mkAverages {
  ages : list Z;
  recv : list Q;
  sent : list Q;
  loopvars : option (Z * (option Q * option Q))
}.

Fixpoint loadAverages (now oldestFullResAge : Z) (fetched : list Bucket)
    (acc : Averages) : Averages :=
  match fetched with
  | [] => acc
  | b :: rest =>
      let age := ageOfTime now (b_time b) in
      if age >? oldestFullResAge
      then loadAverages now oldestFullResAge rest
             {| ages := ages acc ++ [age];
                recv := recv acc ++ [removeNone (fst (b_values b))];
                sent := sent acc ++ [removeNone (snd (b_values b))];
                loopvars := Some (age, b_values b) |}
      else {| ages := ages acc; recv := recv acc; sent := sent acc;
              loopvars := Some (age, b_values b) |}
  end.

Definition blendOf (oldestFullResAge age prevAge : Z) : Q :=
  (inject_Z (oldestFullResAge - age) / inject_Z (prevAge - age))%Q.

Definition interpolate (blend a b : Q) : Q :=
  (a * (1 - blend) + b * blend)%Q.

(** The [if len(ages) > 0] block: the lists and the start index after it. *)
Definition interpolateBoundary (oldestFullResAge : Z) (oldestFullResIndex : nat)
    (av : Averages) : Averages * nat :=
  match ages av, loopvars av with
  | _ :: _, Some (age, values) =>
      let prevAge := last (ages av) 0 in
      if negb (age =? prevAge)
      then
        let blend := blendOf oldestFullResAge age prevAge in
        ({| ages := ages av ++ [oldestFullResAge];
            recv := recv av ++
                    [interpolate blend (removeNone (fst values)) (last (recv av) 0%Q)];
            sent := sent av ++
                    [interpolate blend (removeNone (snd values)) (last (sent av) 0%Q)];
            loopvars := loopvars av |},
         S oldestFullResIndex)
      else (av, oldestFullResIndex)
  | _, _ => (av, oldestFullResIndex)
  end.

(** The series handed to the two plot items. *)
Record Series : Type := mkSeries {
  s_ages : list Z;
  s_recv : list (option Q);
  s_sent : list (option Q)
}.

Definition emptyAverages : Averages :=
  {| ages := []; recv := []; sent := []; loopvars := None |}.

(** Everything up to [# Plot it all]; [now] is [int(time.time())]. *)
Definition mergeSeries (c : Core) (now : Z) : Series :=
  let '(idx0, oldestFullResAge) := oldestFullRes (trafRecv c) in
  let av0 := loadAverages now oldestFullResAge (trafRRD c) emptyAverages in
  let '(av, idx) := interpolateBoundary oldestFullResAge idx0 av0 in
  {| s_ages := ages av ++ skipn idx trafPlotDomain;
     s_recv := map Some (recv av) ++ skipn idx (RRA.differences (trafRecv c) 0);
     s_sent := map Some (sent av) ++ skipn idx (RRA.differences (trafSent c) 0) |}.

Definition plotNetTotals (c : Core) (now : Z) : Core :=
  let s := mergeSeries c now in
  {| trafRecv := trafRecv c; trafSent := trafSent c; trafRRD := trafRRD c;
     lastBlockCount := lastBlockCount c; blockRecvTimes := blockRecvTimes c;
     sink := sink c ++ [TrafRecvPlot (s_ages s) (s_recv s);
                        TrafSentPlot (s_ages s) (s_sent s)] |}.

(** ** updateInfo (the slot of the 'getinfo' request) *)

(** A JSON object of integers, as the RPC reply carries it. *)
Definition Data : Type := list (string * Z).

(** [d[key]]; [None] stands for the [KeyError] of a missing key. *)
Fixpoint lookup (key : string) (d : Data) : option Z :=
  match d with
  | [] => None
  | (k, v) :: rest => if String.eqb key k then Some v else lookup key rest
  end.

(** How a response handler ends: it returns, or it raises; either way the
    writes it made so far stay. *)
Inductive Outcome : Type :=
| Returned (c : Core)
| Raised (c : Core).

Definition core_of (o : Outcome) : Core :=
  match o with Returned c => c | Raised c => c end.

Definition setSink (c : Core) (ev : list SinkEvent) : Core :=
  {| trafRecv := trafRecv c; trafSent := trafSent c; trafRRD := trafRRD c;
     lastBlockCount := lastBlockCount c; blockRecvTimes := blockRecvTimes c;
     sink := sink c ++ ev |}.

(** The [if self.lastBlockCount is None: ... else: ...] block; [now] is
    [time.time()]. *)
Definition observeBlocks (c : Core) (blocks : Z) (now : Q) : Core :=
  match lastBlockCount c with
  | None =>
      {| trafRecv := trafRecv c; trafSent := trafSent c; trafRRD := trafRRD c;
         lastBlockCount := Some blocks; blockRecvTimes := blockRecvTimes c;
         sink := sink c |}
  | Some lastSeen =>
      if blocks >? lastSeen
      then {| trafRecv := trafRecv c; trafSent := trafSent c;
              trafRRD := trafRRD c;
              lastBlockCount := Some blocks;
              blockRecvTimes := RRA.update (blockRecvTimes c) now;
              sink := sink c |}
      else c
  end.

Definition updateInfo (c : Core) (info : Data) (now : Q) : Outcome :=
  match lookup "connections" info with
  | None => Raised c
  | Some conns =>
      let c1 := setSink c [LConns conns] in
      match lookup "blocks" info with
      | None => Raised c1
      | Some blocks =>
          let c2 := setSink c1 [LBlocks blocks] in
          Returned (observeBlocks c2 blocks now)
      end
  end.

(** A well-formed 'getinfo' reply. *)
Definition infoOf (conns blocks : Z) : Data :=
  [("connections"%string, conns); ("blocks"%string, blocks)].

(** Feeding a run of polls [(blocks, now)] to [updateInfo], whatever the
    handler's outcome, as [handlerWrapper] does. *)
Fixpoint feedInfo (c : Core) (polls : list (Z * Q)) : Core :=
  match polls with
  | [] => c
  | (blocks, now) :: rest =>
      feedInfo (core_of (updateInfo c (infoOf 8 blocks) now)) rest
  end.

(** ** The request chain *)

(** A response handler, as [chainRequest] receives it: it works on the
    model attributes and the widgets, given the reply and the clock. *)
Definition Handler : Type := Core -> Data -> Q -> Outcome.

(** An entry of [commandChain]: [(method, args, handlerWrapper)], the last
    one through the handler that it wraps. *)
Record ChainEntry : Type := mkEntry {
  method : string;
  args : list bool;
  responseHandler : Handler
}.

(** The reply object of [proxy._call], named by the call that made it. *)
Record Reply : Type := mkReply {
  r_method : string;
  r_args : list bool
}.

(** The scheduler attributes of [MainWindow], the model, and the calls made
    on the RPC proxy so far.  [chainIndex] and [replies] are first bound by
    [startChain]; nothing reads them before. *)
Record MainWindow : Type := mkMainWindow {
  busy : bool;
  missedSamples : nat;
  chainIndex : nat;
  replies : list Reply;
  core : Core;
  calls : list (string * list bool)
}.

Definition setCore (s : MainWindow) (c : Core) : MainWindow :=
  {| busy := busy s; missedSamples := missedSamples s;
     chainIndex := chainIndex s; replies := replies s;
     core := c; calls := calls s |}.

(** [MainWindow.__init__], followed by [_setupStatusBar] and
    [_setupPlots]. *)
Definition initCore : Core :=
  {| trafRecv := RRA.new traf_samples; trafSent := RRA.new traf_samples;
     trafRRD := []; lastBlockCount := None; blockRecvTimes := RRA.new 24;
     sink := [StatusMissedSamples 0] |}.

Definition init : MainWindow :=
  {| busy := false; missedSamples := 0; chainIndex := 0; replies := [];
     core := initCore; calls := [] |}.

Section Scheduler.

Variable commandChain : list ChainEntry.
Variable DEBUG : bool.

Definition updateStatusMissedSamples (s : MainWindow) : MainWindow :=
  setCore s (setSink (core s) [StatusMissedSamples (missedSamples s)]).

Definition nextChainedRequest (s : MainWindow) : MainWindow :=
  match nth_error commandChain (chainIndex s) with
  | None =>
      (* chainIndex >= len(commandChain) *)
      {| busy := false; missedSamples := missedSamples s;
         chainIndex := chainIndex s; replies := replies s;
         core := setSink (core s) [StatusNetworkRTT (map r_method (replies s))];
         calls := calls s |}
  | Some e =>
      {| busy := busy s; missedSamples := missedSamples s;
         chainIndex := S (chainIndex s);
         replies := replies s ++ [mkReply (method e) (args e)];
         core := core s;
         calls := calls s ++ [(method e, args e)] |}
  end.

Definition startChain (s : MainWindow) : MainWindow :=
  nextChainedRequest
    {| busy := true; missedSamples := missedSamples s;
       chainIndex := 0; replies := [];
       core := core s; calls := calls s |}.

Definition update (s : MainWindow) : MainWindow :=
  if busy s
  then updateStatusMissedSamples
         {| busy := busy s; missedSamples := S (missedSamples s);
            chainIndex := chainIndex s; replies := replies s;
            core := core s; calls := calls s |}
  else startChain s.

(** [handlerWrapper] of [chainRequest]: the bare [except] swallows whatever
    the handler raises, and [nextChainedRequest] runs in both cases. *)
Definition handlerWrapper (h : Handler) (s : MainWindow) (data : Data)
    (now : Q) : MainWindow :=
  match h (core s) data now with
  | Returned c => nextChainedRequest (setCore s c)
  | Raised c => nextChainedRequest (setCore s (setSink c [Traceback]))
  end.

(** [netError]; [now] is the clock that [plotNetTotals] reads. *)
Definition netError (s : MainWindow) (err_str : string) (now : Z)
  : MainWindow :=
  let text := ("Network error: " ++ err_str)%string in
  let c1 := if DEBUG then setSink (core s) [Stderr text] else core s in
  let c2 := setSink c1 [StatusNetworkError text] in
  {| busy := false; missedSamples := missedSamples s;
     chainIndex := chainIndex s; replies := replies s;
     core := plotNetTotals c2 now; calls := calls s |}.

(** What the event loop delivers: the timer, the [finished] signal of the
    reply of step [k], or the [error] signal of a reply. *)
Inductive Event : Type :=
| Tick
| Finished (k : nat) (data : Data) (now : Q)
| Error (err_str : string) (now : Z).

Definition step (s : MainWindow) (ev : Event) : MainWindow :=
  match ev with
  | Tick => update s
  | Finished k data now =>
      match nth_error commandChain k with
      | Some e => handlerWrapper (responseHandler e) s data now
      | None => s
      end
  | Error err_str now => netError s err_str now
  end.

Definition run (s : MainWindow) (evs : list Event) : MainWindow :=
  fold_left step evs s.

End Scheduler.

(** ** Vocabulary of the statements *)

(** Successive points have smaller and smaller ages. *)
Definition descending_ages (l : list Z) : Prop :=
  forall i, (S i < List.length l)%nat -> nth i l 0 > nth (S i) l 0.

(** Successive points have larger and larger ages. *)
Definition ascending_ages (l : list Z) : Prop :=
  forall i, (S i < List.length l)%nat -> nth i l 0 < nth (S i) l 0.

Definition b_age (now : Z) (b : Bucket) : Z := ageOfTime now (b_time b).
Definition b_recv (b : Bucket) : Q := removeNone (fst (b_values b)).
Definition b_sent (b : Bucket) : Q := removeNone (snd (b_values b)).

(** The buckets that the second loop keeps: the leading ones whose age is
    above the boundary. *)
Fixpoint keptBuckets (now a : Z) (fetched : list Bucket) : list Bucket :=
  match fetched with
  | [] => []
  | b :: rest =>
      if b_age now b >? a then b :: keptBuckets now a rest else []
  end.

(** The bucket at which the second loop breaks, if it does. *)
Fixpoint stopBucket (now a : Z) (fetched : list Bucket) : option Bucket :=
  match fetched with
  | [] => None
  | b :: rest => if b_age now b >? a then stopBucket now a rest else Some b
  end.

(** The point that the third block inserts, between the last kept bucket
    [prev] and the bucket [stop] at which the second loop broke. *)
Definition boundaryPoint (val : Bucket -> Q) (now a : Z) (prev stop : Bucket)
  : Q :=
  interpolate (blendOf a (b_age now stop) (b_age now prev)) (val stop) (val prev).

(** The merged series, said from the kept buckets and the stopping one. *)
Definition mergedFrom (c : Core) (now : Z) (idx : nat) (a : Z) : Series :=
  let kept := keptBuckets now a (trafRRD c) in
  match stopBucket now a (trafRRD c), kept with
  | Some stop, k :: ks =>
      let prev := last kept k in
      {| s_ages := map (b_age now) kept ++ [a] ++ skipn (S idx) trafPlotDomain;
         s_recv := map Some (map b_recv kept)
                   ++ [Some (boundaryPoint b_recv now a prev stop)]
                   ++ skipn (S idx) (RRA.differences (trafRecv c) 0);
         s_sent := map Some (map b_sent kept)
                   ++ [Some (boundaryPoint b_sent now a prev stop)]
                   ++ skipn (S idx) (RRA.differences (trafSent c) 0) |}
  | _, _ =>
      {| s_ages := map (b_age now) kept ++ skipn idx trafPlotDomain;
         s_recv := map Some (map b_recv kept)
                   ++ skipn idx (RRA.differences (trafRecv c) 0);
         s_sent := map Some (map b_sent kept)
                   ++ skipn idx (RRA.differences (trafSent c) 0) |}
  end.

Definition isTrafRecvPlot (ev : SinkEvent) : bool :=
  match ev with TrafRecvPlot _ _ => true | _ => false end.

(** How often the merge has handed a series to the receive plot. *)
Definition plotCount (c : Core) : nat :=
  List.length (filter isTrafRecvPlot (sink c)).

(** The arrivals that a block window holds, newest first. *)
Definition arrivals (r : RRA.t) : list Q :=
  flat_map (fun v => match v with Some x => [x] | None => [] end) r.

(** ** States used in the examples *)

(** One archive bucket at age 650 (clock 1000) with value 100, and a window
    whose first filled slot is the one of age 590, with difference 120. *)
Definition boundaryExample : Core :=
  {| trafRecv := repeat None 8 ++ [Some 1120%Q; Some 1000%Q] ++ repeat (Some 1000%Q) 590;
     trafSent := repeat None 8 ++ [Some 1120%Q; Some 1000%Q] ++ repeat (Some 1000%Q) 590;
     trafRRD := [mkBucket 350 (Some 100%Q, Some 100%Q)];
     lastBlockCount := None; blockRecvTimes := RRA.new 24; sink := [] |}.

(** The same window, with a second bucket below the boundary (age 530). *)
Definition straddleExample : Core :=
  {| trafRecv := trafRecv boundaryExample;
     trafSent := trafSent boundaryExample;
     trafRRD := [mkBucket 350 (Some 100%Q, Some 100%Q);
                 mkBucket 470 (Some 160%Q, None)];
     lastBlockCount := None; blockRecvTimes := RRA.new 24; sink := [] |}.

(** A window with no sample yet and the same single archive bucket. *)
Definition coldExample : Core :=
  {| trafRecv := RRA.new traf_samples; trafSent := RRA.new traf_samples;
     trafRRD := [mkBucket 350 (Some 100%Q, Some 100%Q)];
     lastBlockCount := None; blockRecvTimes := RRA.new 24; sink := [] |}.

(** A chain of three steps, each handled by [updateInfo]. *)
Definition threeStepChain : list ChainEntry :=
  [mkEntry "getinfo" [] updateInfo;
   mkEntry "getmininginfo" [] updateInfo;
   mkEntry "getrawmempool" [true] updateInfo].

(** A reply without the 'blocks' key: [updateInfo] raises [KeyError] on
    it. *)
Definition malformedInfo : Data := [("connections"%string, 8)].

(** ** load_config: the argument loop *)

(** [arg.split('=', 1)]: the text before the first '=' and, when there is
    one, the text after it. *)
Fixpoint split_eq (s : string) : string * option string :=
  match s with
  | EmptyString => (EmptyString, None)
  | String ch rest =>
      if Ascii.eqb ch "="%char then (EmptyString, Some rest)
      else let '(h, t) := split_eq rest in (String ch h, t)
  end.

(** The lines that the loop writes to [sys.stderr]. *)
Inductive Warning : Type :=
| EmptyDatadir                       (* 'Warning: empty -datadir, needs "="' *)
| EmptyConf                          (* 'Warning: empty -conf, needs "="' *)
| UnknownArgument (arg : string).    (* 'Warning: unknown argument ' + arg *)

(** The locals [datadir], [conffile] and [testnet], the global [DEBUG] and
    the warnings written so far. *)
Record Args : Type := mkArgs {
  a_datadir : option string;
  a_conffile : string;
  a_testnet : bool;
  a_debug : bool;
  a_warnings : list Warning
}.

(** One turn of [for arg in argv[1:]]. *)
Definition parse_arg (st : Args) (arg : string) : Args :=
  let parts := split_eq arg in
  if String.eqb (fst parts) "-datadir" then
    match snd parts with
    | Some v => {| a_datadir := Some v; a_conffile := a_conffile st;
                   a_testnet := a_testnet st; a_debug := a_debug st;
                   a_warnings := a_warnings st |}
    | None => {| a_datadir := a_datadir st; a_conffile := a_conffile st;
                 a_testnet := a_testnet st; a_debug := a_debug st;
                 a_warnings := a_warnings st ++ [EmptyDatadir] |}
    end
  else if String.eqb (fst parts) "-conf" then
    match snd parts with
    | Some v => {| a_datadir := a_datadir st; a_conffile := v;
                   a_testnet := a_testnet st; a_debug := a_debug st;
                   a_warnings := a_warnings st |}
    | None => {| a_datadir := a_datadir st; a_conffile := a_conffile st;
                 a_testnet := a_testnet st; a_debug := a_debug st;
                 a_warnings := a_warnings st ++ [EmptyConf] |}
    end
  else if String.eqb arg "-testnet" then
    {| a_datadir := a_datadir st; a_conffile := a_conffile st;
       a_testnet := true; a_debug := a_debug st;
       a_warnings := a_warnings st |}
  else if String.eqb arg "-d" || String.eqb arg "-debug" then
    {| a_datadir := a_datadir st; a_conffile := a_conffile st;
       a_testnet := a_testnet st; a_debug := true;
       a_warnings := a_warnings st |}
  else
    {| a_datadir := a_datadir st; a_conffile := a_conffile st;
       a_testnet := a_testnet st; a_debug := a_debug st;
       a_warnings := a_warnings st ++ [UnknownArgument arg] |}.

(** The locals before the loop; [debug0] is the global [DEBUG] as the call
    finds it. *)
Definition args0 (debug0 : bool) : Args :=
  {| a_datadir := None; a_conffile := "bitcoin.conf"; a_testnet := false;
     a_debug := debug0; a_warnings := [] |}.

(** The [# Parse arguments] part of [load_config]. *)
Definition parse_args (debug0 : bool) (argv : list string) : Args :=
  fold_left parse_arg (tl argv) (args0 debug0).

(** ** toggleFullScreen and eventFilter *)

(** What the two slots read and write of the window. *)
Record Chrome : Type := mkChrome {
  isFullScreen : bool;
  windowFullScreen : bool;       (* showFullScreen() / showNormal() *)
  eventFilterInstalled : bool;   (* installEventFilter / removeEventFilter *)
  logoVisible : bool;            (* ui.label_logo *)
  menuBarVisible : bool;
  menuBarHeight : Z
}.

Definition toggleFullScreen (w : Chrome) (enable : bool) : Chrome :=
  {| isFullScreen := enable;
     windowFullScreen := enable;
     eventFilterInstalled := enable;
     logoVisible := enable;
     menuBarVisible := negb enable;
     menuBarHeight := menuBarHeight w |}.

(** An event as [eventFilter] looks at it: a hover move with the [y] of its
    position, or any other type. *)
Inductive QEvent : Type :=
| HoverMove (y : Z)
| OtherEvent.

Definition setMenuBarVisible (w : Chrome) (v : bool) : Chrome :=
  {| isFullScreen := isFullScreen w; windowFullScreen := windowFullScreen w;
     eventFilterInstalled := eventFilterInstalled w;
     logoVisible := logoVisible w; menuBarVisible := v;
     menuBarHeight := menuBarHeight w |}.

(** [eventFilter]: the window after it, and the value it returns. *)
Definition eventFilter (w : Chrome) (event : QEvent) : Chrome * bool :=
  match event with
  | HoverMove y =>
      if menuBarVisible w
      then (if y >? menuBarHeight w then setMenuBarVisible w false else w, false)
      else (if y <? 1 then setMenuBarVisible w true else w, false)
  | OtherEvent => (w, false)
  end.

(** ** updateMemPool (the slot of the 'getrawmempool' request) *)

(** An entry of the pool, its four keys read. *)
Record Tx : Type := mkTx {
  tx_fee : Q;
  tx_size : Q;
  tx_time : Q;
  tx_currentpriority : Q
}.

(** Python's [int(x)] on a number: truncation towards zero. *)
Definition py_int (x : Q) : Z :=
  if Qle_bool 0 x then Qfloor x else Qceiling x.

(** [float(tx['fee']) / math.ceil(float(tx['size'])/1000.)]; [None] stands
    for the [ZeroDivisionError] of a zero divisor. *)
Definition feePerKB (tx : Tx) : option Q :=
  let kb := Qceiling (tx_size tx / 1000) in
  if kb =? 0 then None else Some (tx_fee tx / inject_Z kb)%Q.

(** The scatter plot as [updateMemPool] redraws it: the positions, the pens
    (red or none) and the block lines. *)
Record MemPoolView : Type := mkMemPoolView {
  positions : list (Q * Q);
  pens : list bool;
  blockLines : list Q
}.

(** The [for tx in transactions] loop; [None] when a turn raised. *)
Fixpoint plotTransactions (minFreePriority : Z) (now : Q) (txs : list Tx)
  : option (list (Q * Q) * list bool) :=
  match txs with
  | [] => Some ([], [])
  | tx :: rest =>
      match feePerKB tx with
      | None => None
      | Some fee =>
          match plotTransactions minFreePriority now rest with
          | None => None
          | Some (ps, pn) =>
              Some (((now - tx_time tx)%Q, fee) :: ps,
                    (py_int (tx_currentpriority tx) >=? minFreePriority) :: pn)
          end
      end
  end.

(** [updateMemPool]: [COIN] is [bitcoinconf.COIN], [nowInt] the clock that
    [plotNetTotals] reads and [now] the one read after it.  The view is
    redrawn only when the loop over the transactions went through. *)
Definition updateMemPool (COIN : Z) (c : Core) (pool : list Tx)
    (nowInt : Z) (now : Q) : Outcome * option MemPoolView :=
  let c1 := plotNetTotals c nowInt in
  let minFreePriority := COIN * 144 / 250 in
  match plotTransactions minFreePriority now pool with
  | None => (Raised c1, None)
  | Some (ps, pn) =>
      (Returned c1,
       Some {| positions := ps; pens := pn;
               blockLines :=
                 flat_map (fun blockTime =>
                             match blockTime with
                             | Some t => [(now - t)%Q]
                             | None => []
                             end) (blockRecvTimes c1) |})
  end.

(** ** Vocabulary of the further statements *)

(** Feeding a run of replies [(info, now)] to [updateInfo], whatever the
    handler's outcome, as [handlerWrapper] does. *)
Fixpoint feedReplies (c : Core) (rs : list (Data * Q)) : Core :=
  match rs with
  | [] => c
  | (info, now) :: rest => feedReplies (core_of (updateInfo c info now)) rest
  end.

(** The [finished] signals of steps [k], [k+1], ... with the given
    payloads. *)
Fixpoint finishedFrom (k : nat) (payloads : list (Data * Q))
  : list Event :=
  match payloads with
  | [] => []
  | (data, now) :: rest => Finished k data now :: finishedFrom (S k) rest
  end.

(** The state with another archive behind [fetch_all()]. *)
Definition withArchive (c : Core) (fetched : list Bucket) : Core :=
  {| trafRecv := trafRecv c; trafSent := trafSent c; trafRRD := fetched;
     lastBlockCount := lastBlockCount c; blockRecvTimes := blockRecvTimes c;
     sink := sink c |}.

(** The call and the reply object of a chain entry. *)
Definition callOf (e : ChainEntry) : string * list bool := (method e, args e).
Definition replyOf (e : ChainEntry) : Reply := mkReply (method e) (args e).

(** The scheduler holds one reply per issued step of the running chain. *)
Definition chain_consistent (commandChain : list ChainEntry) (s : MainWindow)
  : Prop :=
  chainIndex s = List.length (replies s) /\
  (chainIndex s <= List.length commandChain)%nat /\
  map r_method (replies s)
  = map method (firstn (chainIndex s) commandChain).

(** The state with one more warning written. *)
Definition warn (st : Args) (w : Warning) : Args :=
  {| a_datadir := a_datadir st; a_conffile := a_conffile st;
     a_testnet := a_testnet st; a_debug := a_debug st;
     a_warnings := a_warnings st ++ [w] |}.

Definition isDebugFlag (arg : string) : bool :=
  String.eqb arg "-d" || String.eqb arg "-debug".

Definition isTestnetFlag (arg : string) : bool := String.eqb arg "-testnet".

(** A window in full-screen mode with its menu bar shown, 25 pixels high. *)
Definition chromeExample : Chrome :=
  {| isFullScreen := true; windowFullScreen := true;
     eventFilterInstalled := true; logoVisible := true;
     menuBarVisible := true; menuBarHeight := 25 |}.

(** * Properties *)

(** ** The plot domain *)

Lemma trafPlotDomain_length : List.length trafPlotDomain = 599%nat.
Proof. unfold trafPlotDomain. rewrite length_map, length_seq. reflexivity. Qed.

Lemma trafPlotDomain_nth (i : nat) :
  (i < 599)%nat -> nth i trafPlotDomain 0 = 598 - Z.of_nat i.
Proof.
  intros Hi. unfold trafPlotDomain.
  set (f := fun s : nat => poll_interval * ageOfTime (Z.of_nat traf_intervals) (Z.of_nat s)).
  rewrite (nth_indep _ 0 (f 0%nat)) by (rewrite length_map, length_seq; exact Hi).
  rewrite map_nth, seq_nth by exact Hi.
  unfold f, poll_interval, ageOfTime, traf_intervals, traf_samples.
  change (Z.of_nat (600 - 1)) with 599. lia.
Qed.

Lemma nth_skipn_Z (n i : nat) (l : list Z) :
  nth i (skipn n l) 0 = nth (n + i) l 0.
Proof.
  revert l. induction n as [|n IH]; intros l; [reflexivity|].
  destruct l as [|x l]; [destruct i; reflexivity|]. simpl. apply IH.
Qed.

Lemma trafPlotDomain_suffix_descending (idx : nat) :
  descending_ages (skipn idx trafPlotDomain).
Proof.
  intros i Hi. rewrite length_skipn, trafPlotDomain_length in Hi.
  rewrite !nth_skipn_Z, !trafPlotDomain_nth by lia. lia.
Qed.

Lemma skipn_cons_nth (idx : nat) (l : list Z) :
  (idx < List.length l)%nat -> skipn idx l = nth idx l 0 :: skipn (S idx) l.
Proof.
  revert l. induction idx as [|n IH]; intros [|x l] H; simpl in *; try lia.
  - reflexivity.
  - apply IH. lia.
Qed.

(** ** The first loop *)

Lemma last_nonempty_default {A : Type} (x : A) (l : list A) (d d' : A) :
  last (x :: l) d = last (x :: l) d'.
Proof.
  revert x. induction l as [|y l IH]; intros x; [reflexivity|].
  change (last (y :: l) d = last (y :: l) d'). apply IH.
Qed.

Lemma findOldestFullRes_spec (r : RRA.t) (l : list nat) (cur : nat) :
  (exists i, fst (findOldestFullRes r l cur) = i /\ In i l /\
             RRA.getitem r i <> None /\
             snd (findOldestFullRes r l cur) = nth i trafPlotDomain 0)
  \/ ((forall j, In j l -> RRA.getitem r j = None) /\
      findOldestFullRes r l cur = (last l cur, 0)).
Proof.
  revert cur. induction l as [|i l IH]; intros cur; simpl.
  - right. split; [intros j []|reflexivity].
  - destruct (RRA.getitem r i) as [v|] eqn:E; simpl.
    + left. exists i. rewrite E. repeat split; auto. discriminate.
    + destruct (IH i) as [(k & Hk & Hin & Hne & Ha)|[Hall Heq]].
      * left. exists k. repeat split; auto.
      * right. split.
        -- intros j [<-|Hj]; auto.
        -- rewrite Heq. f_equal.
           destruct l as [|n l']; [reflexivity|apply last_nonempty_default].
Qed.

(** The index found is inside the domain and the boundary age is the age
    at that index, whether or not a filled slot was found. *)
Lemma oldestFullRes_in_domain (r : RRA.t) :
  (fst (oldestFullRes r) < 599)%nat /\
  snd (oldestFullRes r) = nth (fst (oldestFullRes r)) trafPlotDomain 0.
Proof.
  unfold oldestFullRes. rewrite trafPlotDomain_length.
  destruct (findOldestFullRes_spec r (seq 0 599) 0%nat)
    as [(k & Hk & Hin & _ & Ha)|[_ Heq]].
  - rewrite Hk, Ha. apply in_seq in Hin. split; [lia|reflexivity].
  - rewrite Heq. simpl fst. simpl snd.
    replace (last (seq 0 599) 0%nat) with 598%nat by (vm_compute; reflexivity).
    split; [lia|]. rewrite trafPlotDomain_nth by lia. reflexivity.
Qed.

Lemma oldestFullRes_cold (r : RRA.t) :
  (forall i, (i < List.length trafPlotDomain)%nat -> RRA.getitem r i = None) ->
  oldestFullRes r = (598%nat, 0).
Proof.
  intros Hcold. unfold oldestFullRes.
  destruct (findOldestFullRes_spec r (seq 0 (List.length trafPlotDomain)) 0%nat)
    as [(k & _ & Hin & Hne & _)|[_ Heq]].
  - apply in_seq in Hin. exfalso. apply Hne, Hcold. lia.
  - rewrite Heq, trafPlotDomain_length. f_equal.
Qed.

(** Every index that the first loop reads is inside a buffer of the
    capacity that [_setupPlots] gives it. *)
Lemma getitem_in_range (r : RRA.t) (i : nat) :
  List.length r = traf_samples -> In i (seq 0 (List.length trafPlotDomain)) ->
  (i < List.length r)%nat.
Proof.
  intros Hr Hin. apply in_seq in Hin. rewrite trafPlotDomain_length in Hin.
  rewrite Hr. unfold traf_samples. lia.
Qed.

(** ** The second loop *)

Lemma loadAverages_spec (now a : Z) (fetched : list Bucket) :
  forall acc,
    let r := loadAverages now a fetched acc in
    let kept := keptBuckets now a fetched in
    ages r = ages acc ++ map (b_age now) kept /\
    recv r = recv acc ++ map b_recv kept /\
    sent r = sent acc ++ map b_sent kept /\
    loopvars r =
      match stopBucket now a fetched, kept with
      | Some stop, _ => Some (b_age now stop, b_values stop)
      | None, k :: ks => Some (b_age now (last kept k), b_values (last kept k))
      | None, [] => loopvars acc
      end.
Proof.
  induction fetched as [|b rest IH]; intros acc; simpl.
  - rewrite !app_nil_r. auto.
  - change (ageOfTime now (b_time b)) with (b_age now b).
    destruct (b_age now b >? a) eqn:E; simpl.
    + specialize (IH {| ages := ages acc ++ [b_age now b];
                        recv := recv acc ++ [removeNone (fst (b_values b))];
                        sent := sent acc ++ [removeNone (snd (b_values b))];
                        loopvars := Some (b_age now b, b_values b) |}).
      simpl in IH. destruct IH as (Ha & Hr & Hs & Hl).
      rewrite Ha, Hr, Hs, Hl, <- !app_assoc. simpl.
      repeat split.
      destruct (stopBucket now a rest); [reflexivity|].
      destruct (keptBuckets now a rest) as [|k ks] eqn:K; [reflexivity|].
      rewrite (last_nonempty_default k ks k b). reflexivity.
    + rewrite !app_nil_r. auto.
Qed.

Lemma keptBuckets_above (now a : Z) (fetched : list Bucket) :
  Forall (fun b => b_age now b > a) (keptBuckets now a fetched).
Proof.
  induction fetched as [|b rest IH]; simpl; [constructor|].
  destruct (b_age now b >? a) eqn:E; constructor; auto.
  apply Z.gtb_lt in E. lia.
Qed.

Lemma stopBucket_below (now a : Z) (fetched : list Bucket) (stop : Bucket) :
  stopBucket now a fetched = Some stop -> b_age now stop <= a.
Proof.
  induction fetched as [|b rest IH]; simpl; [discriminate|].
  destruct (b_age now b >? a) eqn:E; auto.
  intros [= <-]. rewrite Z.gtb_ltb in E. apply Z.ltb_ge in E. exact E.
Qed.

Lemma last_map {A B : Type} (f : A -> B) (l : list A) (d : A) :
  last (map f l) (f d) = f (last l d).
Proof.
  induction l as [|x l IH]; [reflexivity|].
  destruct l as [|y l]; [reflexivity|]. exact IH.
Qed.

Lemma last_in {A : Type} (x : A) (l : list A) (d : A) : In (last (x :: l) d) (x :: l).
Proof.
  revert x. induction l as [|y l IH]; intros x; [left; reflexivity|].
  right. apply IH.
Qed.

(** The merge, as the three blocks of [plotNetTotals] leave it. *)
Lemma mergeSeries_mergedFrom (c : Core) (now : Z) :
  mergeSeries c now =
  mergedFrom c now (fst (oldestFullRes (trafRecv c)))
             (snd (oldestFullRes (trafRecv c))).
Proof.
  unfold mergeSeries, mergedFrom.
  destruct (oldestFullRes (trafRecv c)) as [idx a]. simpl fst. simpl snd.
  pose proof (loadAverages_spec now a (trafRRD c) emptyAverages) as H.
  cbv zeta in H. simpl in H.
  pose proof (keptBuckets_above now a (trafRRD c)) as Habove.
  destruct (loadAverages now a (trafRRD c) emptyAverages) as [ag rc sn lv].
  simpl in H. destruct H as (-> & -> & -> & ->).
  unfold interpolateBoundary. cbn [ages recv sent loopvars].
  destruct (keptBuckets now a (trafRRD c)) as [|k ks] eqn:K.
  - simpl. destruct (stopBucket now a (trafRRD c)); reflexivity.
  - change (map (b_age now) (k :: ks)) with (b_age now k :: map (b_age now) ks).
    cbv iota beta.
    rewrite (last_nonempty_default (b_age now k) (map (b_age now) ks) 0 (b_age now k)).
    change (b_age now k :: map (b_age now) ks) with (map (b_age now) (k :: ks)).
    rewrite last_map.
    destruct (stopBucket now a (trafRRD c)) as [stop|] eqn:S.
    + apply stopBucket_below in S.
      assert (Hp : b_age now (last (k :: ks) k) > a).
      { eapply (proj1 (Forall_forall _ _) Habove). apply last_in. }
      replace (b_age now stop =? b_age now (last (k :: ks) k)) with false
        by (symmetry; apply Z.eqb_neq; lia).
      cbv iota beta zeta. simpl negb. cbv iota. unfold boundaryPoint.
      cbn [ages recv sent loopvars].
      change (map b_recv (k :: ks)) with (b_recv k :: map b_recv ks).
      change (map b_sent (k :: ks)) with (b_sent k :: map b_sent ks).
      rewrite (last_nonempty_default (b_recv k) (map b_recv ks) 0%Q (b_recv k)).
      rewrite (last_nonempty_default (b_sent k) (map b_sent ks) 0%Q (b_sent k)).
      change (b_recv k :: map b_recv ks) with (map b_recv (k :: ks)).
      change (b_sent k :: map b_sent ks) with (map b_sent (k :: ks)).
      rewrite !last_map.
      rewrite !map_app, <- !app_assoc. reflexivity.
    + rewrite Z.eqb_refl. reflexivity.
Qed.

(** ** The series merge *)

Lemma skipn_differences (r : RRA.t) :
  List.length r = traf_samples ->
  skipn 598 (RRA.differences r 0) = [RRA.difference r 598 599] /\
  skipn 599 (RRA.differences r 0) = [].
Proof.
  intros Hr. unfold RRA.differences. rewrite Hr, !skipn_map.
  change (traf_samples - 1 - 0)%nat with 599%nat.
  replace (skipn 598 (seq 0 599)) with [598%nat] by (vm_compute; reflexivity).
  replace (skipn 599 (seq 0 599)) with (@nil nat) by (vm_compute; reflexivity).
  split; reflexivity.
Qed.

Lemma skipn_domain_tail :
  skipn 598 trafPlotDomain = [0] /\ skipn 599 trafPlotDomain = [].
Proof. split; vm_compute; reflexivity. Qed.

Lemma getitem_new (n i : nat) : RRA.getitem (RRA.new n) i = None.
Proof. unfold RRA.getitem, RRA.new. apply nth_repeat. Qed.

Lemma notIn_existsb (x : Z) (l : list Z) :
  existsb (Z.eqb x) l = false -> ~ In x l.
Proof.
  intros H Hin. assert (existsb (Z.eqb x) l = true) as E.
  { apply existsb_exists. exists x. split; [exact Hin|apply Z.eqb_refl]. }
  congruence.
Qed.

(** C1, as the code has it: the third block of [plotNetTotals] inserts a
    point at the boundary age exactly when the second loop kept at least
    one bucket and then broke at a bucket [stop] at or below the boundary.
    The point blends the value of [stop] with the value of the last kept
    bucket [prev], by [v_stop * (1 - blend) + v_prev * blend] with
    [blend = (boundaryAge - age_stop) / (age_prev - age_stop)], and the
    full-resolution data then starts one index later.  When the archive
    runs out without such a bucket, or no bucket is kept, nothing is
    inserted and the full-resolution data starts at the boundary index. *)
Theorem plotNetTotals_boundary_point (c : Core) (now : Z) :
  let idx := fst (oldestFullRes (trafRecv c)) in
  let a := snd (oldestFullRes (trafRecv c)) in
  let kept := keptBuckets now a (trafRRD c) in
  let out := mergeSeries c now in
  match stopBucket now a (trafRRD c), kept with
  | Some stop, k :: ks =>
      let prev := last kept k in
      let blend :=
        (inject_Z (a - b_age now stop)
         / inject_Z (b_age now prev - b_age now stop))%Q in
      b_age now stop <= a < b_age now prev /\
      s_ages out = map (b_age now) kept ++ [a] ++ skipn (S idx) trafPlotDomain /\
      s_recv out = map Some (map b_recv kept)
                   ++ [Some (b_recv stop * (1 - blend) + b_recv prev * blend)%Q]
                   ++ skipn (S idx) (RRA.differences (trafRecv c) 0) /\
      s_sent out = map Some (map b_sent kept)
                   ++ [Some (b_sent stop * (1 - blend) + b_sent prev * blend)%Q]
                   ++ skipn (S idx) (RRA.differences (trafSent c) 0)
  | _, _ =>
      s_ages out = map (b_age now) kept ++ skipn idx trafPlotDomain /\
      s_recv out = map Some (map b_recv kept)
                   ++ skipn idx (RRA.differences (trafRecv c) 0) /\
      s_sent out = map Some (map b_sent kept)
                   ++ skipn idx (RRA.differences (trafSent c) 0)
  end.
Proof.
  cbv zeta. rewrite mergeSeries_mergedFrom. unfold mergedFrom.
  pose proof (keptBuckets_above now (snd (oldestFullRes (trafRecv c))) (trafRRD c))
    as Habove.
  destruct (stopBucket now (snd (oldestFullRes (trafRecv c))) (trafRRD c))
    as [stop|] eqn:S;
    destruct (keptBuckets now (snd (oldestFullRes (trafRecv c))) (trafRRD c))
      as [|k ks] eqn:K; cbn [s_ages s_recv s_sent]; auto.
  apply stopBucket_below in S.
  assert (b_age now (last (k :: ks) k) > snd (oldestFullRes (trafRecv c))) as Hp.
  { eapply (proj1 (Forall_forall _ _) Habove). apply last_in. }
  repeat split; try lia.
Qed.

(** The scenario of the spec: one bucket at age 650 with value 100 and the
    oldest filled sample at age 590 with value 120.  The series has no point
    at age 600 and no blended point at all: it is the bucket followed by the
    raw full-resolution data from age 590 on. *)
Lemma plotNetTotals_boundary_scenario :
  oldestFullRes (trafRecv boundaryExample) = (8%nat, 590) /\
  map (b_age 1000) (trafRRD boundaryExample) = [650] /\
  ~ In 600 (s_ages (mergeSeries boundaryExample 1000)) /\
  s_ages (mergeSeries boundaryExample 1000) = 650 :: skipn 8 trafPlotDomain /\
  s_recv (mergeSeries boundaryExample 1000)
  = Some 100%Q :: skipn 8 (RRA.differences (trafRecv boundaryExample) 0) /\
  nth 1 (s_ages (mergeSeries boundaryExample 1000)) 0 = 590 /\
  nth 1 (s_recv (mergeSeries boundaryExample 1000)) None = Some 120%Q.
Proof.
  repeat split; try (vm_compute; reflexivity).
  apply notIn_existsb. vm_compute. reflexivity.
Qed.

(** With a second bucket below the boundary (age 530, value 160) the block
    does insert a point, at the boundary age 590 itself: half-way between
    the two buckets, 130, and the raw value 120 of that slot is skipped. *)
Example plotNetTotals_straddling_buckets :
  firstn 3 (s_ages (mergeSeries straddleExample 1000)) = [650; 590; 589] /\
  (exists y, nth 1 (s_recv (mergeSeries straddleExample 1000)) None = Some y
             /\ (y == 130)%Q) /\
  nth 2 (s_recv (mergeSeries straddleExample 1000)) None = Some 0%Q.
Proof.
  split; [vm_compute; reflexivity|]. split; [|vm_compute; reflexivity].
  eexists. split; [vm_compute; reflexivity|]. vm_compute. reflexivity.
Qed.

(** C6, as the code has it: with a window of the capacity [_setupPlots]
    creates and no filled slot in the scanned domain, the boundary index is
    the last one and the boundary age is 0, so the series is the kept
    buckets followed by one more point at age 0: the blended point when the
    second loop broke at a bucket of age at most 0 after keeping one, and
    otherwise the last full-resolution slot, whose received value is
    absent. *)
Theorem plotNetTotals_cold_start (c : Core) (now : Z)
    (Hrecv : List.length (trafRecv c) = traf_samples)
    (Hsent : List.length (trafSent c) = traf_samples)
    (Hcold : forall i, (i < List.length trafPlotDomain)%nat ->
                       RRA.getitem (trafRecv c) i = None) :
  let kept := keptBuckets now 0 (trafRRD c) in
  let out := mergeSeries c now in
  s_ages out = map (b_age now) kept ++ [0] /\
  s_recv out = map Some (map b_recv kept)
               ++ [match stopBucket now 0 (trafRRD c), kept with
                   | Some stop, k :: ks =>
                       Some (boundaryPoint b_recv now 0 (last kept k) stop)
                   | _, _ => None
                   end] /\
  s_sent out = map Some (map b_sent kept)
               ++ [match stopBucket now 0 (trafRRD c), kept with
                   | Some stop, k :: ks =>
                       Some (boundaryPoint b_sent now 0 (last kept k) stop)
                   | _, _ => RRA.difference (trafSent c) 598 599
                   end].
Proof.
  cbv zeta. rewrite mergeSeries_mergedFrom, (oldestFullRes_cold _ Hcold).
  unfold mergedFrom. simpl fst. simpl snd.
  destruct (skipn_differences _ Hrecv) as [R598 R599].
  destruct (skipn_differences _ Hsent) as [S598 S599].
  destruct skipn_domain_tail as [D598 D599].
  assert (RRA.difference (trafRecv c) 598 599 = None) as Hnone.
  { unfold RRA.difference. rewrite Hcold; [reflexivity|].
    rewrite trafPlotDomain_length. lia. }
  destruct (stopBucket now 0 (trafRRD c)) as [stop|];
    destruct (keptBuckets now 0 (trafRRD c)) as [|k ks];
    cbn [s_ages s_recv s_sent];
    rewrite ?R598, ?R599, ?S598, ?S599, ?D598, ?D599, ?Hnone, ?app_nil_r;
    repeat split; reflexivity.
Qed.

Lemma plotNetTotals_cold_start_witness :
  List.length (trafRecv coldExample) = traf_samples /\
  List.length (trafSent coldExample) = traf_samples /\
  (forall i, (i < List.length trafPlotDomain)%nat ->
             RRA.getitem (trafRecv coldExample) i = None) /\
  s_ages (mergeSeries coldExample 1000)
  = map (b_age 1000) (keptBuckets 1000 0 (trafRRD coldExample)) ++ [0].
Proof.
  assert (forall i, (i < List.length trafPlotDomain)%nat ->
                    RRA.getitem (trafRecv coldExample) i = None) as Hcold.
  { intros i _. apply getitem_new. }
  split; [reflexivity|]. split; [reflexivity|]. split; [exact Hcold|].
  exact (proj1 (plotNetTotals_cold_start coldExample 1000 eq_refl eq_refl Hcold)).
Defined.

(** A cold window with one archive bucket: the series is not the drained
    bucket alone, a point at age 0 follows it. *)
Lemma plotNetTotals_cold_start_extra_point :
  (forall i, (i < List.length trafPlotDomain)%nat ->
             RRA.getitem (trafRecv coldExample) i = None) /\
  map (b_age 1000) (trafRRD coldExample) = [650] /\
  s_ages (mergeSeries coldExample 1000) = [650; 0] /\
  s_ages (mergeSeries coldExample 1000)
  <> map (b_age 1000) (trafRRD coldExample).
Proof.
  split; [intros i _; apply getitem_new|].
  split; [reflexivity|]. split; [vm_compute; reflexivity|].
  vm_compute. discriminate.
Qed.

Lemma skipn_domain_below (idx : nat) :
  (idx < 599)%nat ->
  Forall (fun x => x <= nth idx trafPlotDomain 0) (skipn idx trafPlotDomain).
Proof.
  intros Hidx. apply Forall_forall. intros x Hin.
  destruct (In_nth _ _ 0 Hin) as (i & Hi & <-).
  rewrite length_skipn, trafPlotDomain_length in Hi.
  rewrite nth_skipn_Z, !trafPlotDomain_nth by lia. lia.
Qed.

(** C7, as the code has it: the ages of the series are the ages of the kept
    buckets followed by the plot domain from the boundary index on; that
    tail runs from the boundary age down to 0 in descending order (each
    successive full-resolution point has a smaller age), every kept bucket
    is older than the boundary and every point of the tail is at most as
    old. *)
Theorem plotNetTotals_ages_descending (c : Core) (now : Z) :
  let idx := fst (oldestFullRes (trafRecv c)) in
  let a := snd (oldestFullRes (trafRecv c)) in
  let kept := keptBuckets now a (trafRRD c) in
  s_ages (mergeSeries c now)
  = map (b_age now) kept ++ skipn idx trafPlotDomain /\
  descending_ages (skipn idx trafPlotDomain) /\
  Forall (fun x => x > a) (map (b_age now) kept) /\
  Forall (fun x => x <= a) (skipn idx trafPlotDomain).
Proof.
  cbv zeta. destruct (oldestFullRes_in_domain (trafRecv c)) as [Hidx Ha].
  split; [|split; [|split]].
  - rewrite mergeSeries_mergedFrom. unfold mergedFrom.
    destruct (stopBucket now (snd (oldestFullRes (trafRecv c))) (trafRRD c));
      destruct (keptBuckets now (snd (oldestFullRes (trafRecv c))) (trafRRD c))
        as [|k ks]; cbn [s_ages]; try reflexivity.
    rewrite (skipn_cons_nth (fst (oldestFullRes (trafRecv c))) trafPlotDomain)
      by (rewrite trafPlotDomain_length; exact Hidx).
    rewrite <- Ha. reflexivity.
  - apply trafPlotDomain_suffix_descending.
  - apply Forall_map. apply keptBuckets_above.
  - rewrite Ha. apply skipn_domain_below. exact Hidx.
Qed.

(** The full-resolution points of the boundary scenario come in falling
    ages, 590 then 589: the series is not in ascending-age order. *)
Lemma plotNetTotals_ages_not_ascending :
  nth 1 (s_ages (mergeSeries boundaryExample 1000)) 0 = 590 /\
  nth 2 (s_ages (mergeSeries boundaryExample 1000)) 0 = 589 /\
  ~ ascending_ages (skipn 8 trafPlotDomain) /\
  ~ ascending_ages (s_ages (mergeSeries boundaryExample 1000)).
Proof.
  split; [vm_compute; reflexivity|]. split; [vm_compute; reflexivity|]. split.
  - intros H. specialize (H 0%nat).
    rewrite length_skipn, trafPlotDomain_length in H.
    rewrite !nth_skipn_Z, !trafPlotDomain_nth in H by lia.
    simpl in H. lia.
  - intros H. specialize (H 1%nat).
    replace (List.length (s_ages (mergeSeries boundaryExample 1000)))
      with 592%nat in H by (vm_compute; reflexivity).
    replace (nth 1 (s_ages (mergeSeries boundaryExample 1000)) 0)
      with 590 in H by (vm_compute; reflexivity).
    replace (nth 2 (s_ages (mergeSeries boundaryExample 1000)) 0)
      with 589 in H by (vm_compute; reflexivity).
    lia.
Qed.

(** C8, as the code has it: [plotNetTotals] writes none of the ring
    buffers, the archive or the block state, it only hands the series to the
    two plot items; the series depends on the window, the archive and the
    clock reading only, so a second merge at the same clock reading gives
    the same series. *)
Theorem plotNetTotals_same_clock_same_series (c : Core) (now : Z) :
  let c1 := plotNetTotals c now in
  trafRecv c1 = trafRecv c /\ trafSent c1 = trafSent c /\
  trafRRD c1 = trafRRD c /\ lastBlockCount c1 = lastBlockCount c /\
  blockRecvTimes c1 = blockRecvTimes c /\
  sink c1 = sink c ++ [TrafRecvPlot (s_ages (mergeSeries c now))
                                    (s_recv (mergeSeries c now));
                       TrafSentPlot (s_ages (mergeSeries c now))
                                    (s_sent (mergeSeries c now))] /\
  mergeSeries c1 now = mergeSeries c now /\
  sink (plotNetTotals c1 now)
  = sink c1 ++ [TrafRecvPlot (s_ages (mergeSeries c now))
                             (s_recv (mergeSeries c now));
                TrafSentPlot (s_ages (mergeSeries c now))
                             (s_sent (mergeSeries c now))].
Proof. cbv zeta. repeat split. Qed.

(** Two merges of one untouched state, a second apart: the archive bucket
    is at age 650 in the first series and at age 651 in the second. *)
Lemma plotNetTotals_clock_changes_series :
  let c1 := plotNetTotals boundaryExample 1000 in
  trafRecv c1 = trafRecv boundaryExample /\
  trafSent c1 = trafSent boundaryExample /\
  trafRRD c1 = trafRRD boundaryExample /\
  nth 0 (s_ages (mergeSeries boundaryExample 1000)) 0 = 650 /\
  nth 0 (s_ages (mergeSeries c1 1001)) 0 = 651 /\
  mergeSeries c1 1001 <> mergeSeries boundaryExample 1000.
Proof.
  cbv zeta. repeat split; try (vm_compute; reflexivity).
  intros H. apply (f_equal (fun s => nth 0 (s_ages s) 0)) in H.
  vm_compute in H. discriminate.
Qed.

(** ** The block-arrival observer *)

(** C5: on a well-formed reply the first observed count only sets the
    baseline; afterwards the clock reading enters the window exactly when
    the count is strictly above the last-seen one, which is then updated; an
    equal or smaller count changes neither.  Counts 100, 100, 101, 101, 99,
    102 at [t0 .. t5] record the arrivals [t2] and [t5] only. *)
Theorem updateInfo_block_arrivals :
  (forall (c : Core) (conns blocks : Z) (now : Q),
      let c' := core_of (updateInfo c (infoOf conns blocks) now) in
      updateInfo c (infoOf conns blocks) now = Returned c' /\
      match lastBlockCount c with
      | None =>
          lastBlockCount c' = Some blocks /\
          blockRecvTimes c' = blockRecvTimes c
      | Some lastSeen =>
          if blocks >? lastSeen
          then lastBlockCount c' = Some blocks /\
               blockRecvTimes c' = RRA.update (blockRecvTimes c) now
          else lastBlockCount c' = Some lastSeen /\
               blockRecvTimes c' = blockRecvTimes c
      end) /\
  (forall t0 t1 t2 t3 t4 t5 : Q,
      let c' := feedInfo initCore
                  [(100, t0); (100, t1); (101, t2); (101, t3); (99, t4); (102, t5)] in
      arrivals (blockRecvTimes c') = [t5; t2] /\
      blockRecvTimes c' = Some t5 :: Some t2 :: repeat None 22 /\
      lastBlockCount c' = Some 102).
Proof.
  split.
  - intros c conns blocks now. cbv zeta. unfold updateInfo, infoOf.
    cbn [lookup String.eqb Ascii.eqb Bool.eqb]. cbn [core_of].
    split; [reflexivity|]. unfold observeBlocks, setSink.
    cbn [lastBlockCount blockRecvTimes].
    destruct (lastBlockCount c) as [lastSeen|]; [|split; reflexivity].
    destruct (blocks >? lastSeen); split; reflexivity.
  - intros. cbv zeta. repeat split; vm_compute; reflexivity.
Qed.

(** ** The scheduler *)

Section SchedulerFacts.

Variable commandChain : list ChainEntry.
Variable DEBUG : bool.

Lemma nextChainedRequest_missedSamples (s : MainWindow) :
  missedSamples (nextChainedRequest commandChain s) = missedSamples s.
Proof.
  unfold nextChainedRequest.
  destruct (nth_error commandChain (chainIndex s)); reflexivity.
Qed.

Lemma handlerWrapper_missedSamples (h : Handler) (s : MainWindow)
    (data : Data) (now : Q) :
  missedSamples (handlerWrapper commandChain h s data now) = missedSamples s.
Proof.
  unfold handlerWrapper.
  destruct (h (core s) data now); rewrite nextChainedRequest_missedSamples;
    reflexivity.
Qed.

Lemma step_missedSamples (s : MainWindow) (ev : Event) :
  missedSamples (step commandChain DEBUG s ev)
  = match ev with
    | Tick => if busy s then S (missedSamples s) else missedSamples s
    | _ => missedSamples s
    end.
Proof.
  destruct ev as [|k data now|err now]; simpl.
  - unfold update. destruct (busy s); [reflexivity|].
    unfold startChain. rewrite nextChainedRequest_missedSamples. reflexivity.
  - destruct (nth_error commandChain k); [|reflexivity].
    apply handlerWrapper_missedSamples.
  - reflexivity.
Qed.

Lemma run_missedSamples (evs : list Event) :
  forall s, (missedSamples s <= missedSamples (run commandChain DEBUG s evs))%nat.
Proof.
  unfold run. induction evs as [|ev evs IH]; intros s; simpl; [lia|].
  eapply Nat.le_trans; [|apply IH].
  rewrite step_missedSamples. destruct ev; try lia. destruct (busy s); lia.
Qed.

End SchedulerFacts.

(** C2: after [netError] the busy flag is [False], and the handler made no
    remote call and left the step index and the replies as they were: the
    remaining steps of the cycle are never issued. *)
Theorem netError_truncates_chain (commandChain : list ChainEntry)
    (DEBUG : bool) (s : MainWindow) (err_str : string) (now : Z) :
  let s' := step commandChain DEBUG s (Error err_str now) in
  s' = netError DEBUG s err_str now /\
  busy s' = false /\
  calls s' = calls s /\
  chainIndex s' = chainIndex s /\
  replies s' = replies s.
Proof. cbv zeta. repeat split. Qed.

(** Step 1 of a three-step chain errors: its call is the only one of the
    cycle and the scheduler is idle. *)
Example netError_first_of_three :
  let s' := run threeStepChain false init [Tick; Error "timeout" 1000] in
  calls s' = [("getinfo"%string, [])] /\ busy s' = false /\
  chainIndex s' = 1%nat.
Proof. cbv zeta. repeat split. Qed.

(** C3: whatever the response handler does, return or raise,
    [handlerWrapper] goes on to [nextChainedRequest]: it issues the call of
    the next step when there is one, and otherwise unlocks and publishes
    the round-trip times.  A raise leaves a traceback and nothing else. *)
Theorem handlerWrapper_isolates_faults (commandChain : list ChainEntry)
    (h : Handler) (s : MainWindow) (data : Data) (now : Q) :
  let s' := handlerWrapper commandChain h s data now in
  let c' := match h (core s) data now with
            | Returned c => c
            | Raised c => setSink c [Traceback]
            end in
  s' = nextChainedRequest commandChain (setCore s c') /\
  match nth_error commandChain (chainIndex s) with
  | Some e =>
      calls s' = calls s ++ [(method e, args e)] /\
      replies s' = replies s ++ [mkReply (method e) (args e)] /\
      chainIndex s' = S (chainIndex s) /\
      busy s' = busy s
  | None =>
      busy s' = false /\
      calls s' = calls s /\
      sink (core s') = sink c' ++ [StatusNetworkRTT (map r_method (replies s))]
  end.
Proof.
  cbv zeta. unfold handlerWrapper.
  destruct (h (core s) data now) as [c|c]; (split; [reflexivity|]);
    unfold nextChainedRequest, setCore; cbn [chainIndex];
    destruct (nth_error commandChain (chainIndex s)); repeat split.
Qed.

(** The handler of step 2 raises on a reply without 'blocks': the call of
    step 3 is issued all the same, and a traceback is left. *)
Example handlerWrapper_second_of_three (t : Q) :
  let s1 := run threeStepChain false init [Tick; Finished 0 (infoOf 8 100) t] in
  let s2 := step threeStepChain false s1 (Finished 1 malformedInfo t) in
  updateInfo (core s1) malformedInfo t
  = Raised (setSink (core s1) [LConns 8]) /\
  calls s1 = [("getinfo"%string, []); ("getmininginfo"%string, [])] /\
  calls s2 = calls s1 ++ [("getrawmempool"%string, [true])] /\
  busy s2 = true /\
  In Traceback (sink (core s2)).
Proof.
  cbv zeta. repeat split. vm_compute. auto 10.
Qed.

(** C4: a tick while busy starts nothing, leaves the step index, the
    replies and the calls as they were and adds one to the missed-sample
    counter, which it shows; a tick while idle leaves the counter and
    starts one chain, issuing the call of step 0 alone. *)
Theorem update_tick (commandChain : list ChainEntry) (s : MainWindow) :
  let s' := update commandChain s in
  if busy s
  then busy s' = true /\
       missedSamples s' = S (missedSamples s) /\
       chainIndex s' = chainIndex s /\
       replies s' = replies s /\
       calls s' = calls s /\
       sink (core s')
       = sink (core s) ++ [StatusMissedSamples (S (missedSamples s))]
  else missedSamples s' = missedSamples s /\
       match commandChain with
       | e :: _ =>
           busy s' = true /\
           chainIndex s' = 1%nat /\
           replies s' = [mkReply (method e) (args e)] /\
           calls s' = calls s ++ [(method e, args e)]
       | [] => busy s' = false /\ calls s' = calls s
       end.
Proof.
  cbv zeta. unfold update. destruct (busy s) eqn:B.
  - cbn. repeat split.
  - unfold startChain, nextChainedRequest. cbn [chainIndex].
    destruct commandChain as [|e rest]; cbn; repeat split.
Qed.

(** C9: [netError] runs the merge once: one more series reaches the
    receive plot, it is the merge of the window and archive as they are,
    at the handler's clock reading, it comes after the error text, and the
    scheduler is unlocked in the state that results. *)
Theorem netError_replots_once (DEBUG : bool) (s : MainWindow)
    (err_str : string) (now : Z) :
  let s' := netError DEBUG s err_str now in
  let text := ("Network error: " ++ err_str)%string in
  let m := mergeSeries (core s) now in
  busy s' = false /\
  plotCount (core s') = S (plotCount (core s)) /\
  sink (core s')
  = sink (core s) ++ (if DEBUG then [Stderr text] else [])
    ++ [StatusNetworkError text;
        TrafRecvPlot (s_ages m) (s_recv m); TrafSentPlot (s_ages m) (s_sent m)] /\
  trafRecv (core s') = trafRecv (core s) /\
  trafSent (core s') = trafSent (core s) /\
  trafRRD (core s') = trafRRD (core s).
Proof.
  cbv zeta. unfold netError, plotCount. cbn [busy core].
  destruct DEBUG; cbn [plotNetTotals setSink sink trafRecv trafSent trafRRD];
    rewrite <- ?app_assoc; cbn [app];
    rewrite ?filter_app; cbn [filter isTrafRecvPlot];
    rewrite ?length_app; cbn [List.length];
    repeat split; lia.
Qed.

(** C10: the missed-sample counter starts at 0; an event changes it only
    when it is a tick that finds the scheduler busy, which adds one; so it
    never decreases along any run of events. *)
Theorem missedSamples_never_decreases (commandChain : list ChainEntry)
    (DEBUG : bool) :
  missedSamples init = 0%nat /\
  (forall s ev,
      missedSamples (step commandChain DEBUG s ev)
      = match ev with
        | Tick => if busy s then S (missedSamples s) else missedSamples s
        | _ => missedSamples s
        end) /\
  (forall s evs,
      (missedSamples s <= missedSamples (run commandChain DEBUG s evs))%nat) /\
  (forall s evs1 evs2,
      (missedSamples (run commandChain DEBUG s evs1)
       <= missedSamples (run commandChain DEBUG s (evs1 ++ evs2)))%nat).
Proof.
  split; [reflexivity|]. split; [apply step_missedSamples|].
  split; [intros s evs; apply run_missedSamples|].
  intros s evs1 evs2. unfold run. rewrite fold_left_app.
  apply run_missedSamples.
Qed.

(** * Further properties of the code *)

(** ** The scheduler over whole cycles *)

Lemma nth_error_middle {A : Type} (pre : list A) (x : A) (post : list A) :
  nth_error (pre ++ x :: post) (List.length pre) = Some x.
Proof. induction pre as [|y pre IH]; [reflexivity|exact IH]. Qed.

Lemma handlerWrapper_scheduler (commandChain : list ChainEntry) (h : Handler)
    (s : MainWindow) (data : Data) (now : Q) :
  exists c, handlerWrapper commandChain h s data now
            = nextChainedRequest commandChain (setCore s c).
Proof.
  unfold handlerWrapper. destruct (h (core s) data now) as [c|c]; eauto.
Qed.

(** Once the call of step [length pre] is out, the replies of that step and
    of the ones after it carry the chain to its end. *)
Lemma run_finished_from (DEBUG : bool) (post : list ChainEntry) :
  forall (pre : list ChainEntry) (e : ChainEntry) (s : MainWindow)
         (payloads : list (Data * Q)),
    chainIndex s = S (List.length pre) ->
    List.length payloads = S (List.length post) ->
    let chain := pre ++ e :: post in
    let s' := run chain DEBUG s (finishedFrom (List.length pre) payloads) in
    calls s' = calls s ++ map callOf post /\
    replies s' = replies s ++ map replyOf post /\
    chainIndex s' = List.length chain /\
    busy s' = false /\
    missedSamples s' = missedSamples s.
Proof.
  induction post as [|e' post IH]; intros pre e s payloads Hidx Hlen;
    destruct payloads as [|[data now] payloads]; try discriminate;
    cbv zeta; cbn [finishedFrom run fold_left step].
  - destruct payloads; [|discriminate]. cbn [finishedFrom fold_left].
    rewrite nth_error_middle.
    destruct (handlerWrapper_scheduler (pre ++ [e]) (responseHandler e) s data now)
      as [c ->].
    unfold nextChainedRequest. cbn [setCore chainIndex]. rewrite Hidx.
    replace (nth_error (pre ++ [e]) (S (List.length pre))) with (@None ChainEntry).
    + cbn. rewrite !app_nil_r, length_app. cbn. repeat split; lia.
    + symmetry. apply nth_error_None. rewrite length_app. cbn. lia.
  - rewrite nth_error_middle.
    destruct (handlerWrapper_scheduler (pre ++ e :: e' :: post)
                (responseHandler e) s data now) as [c Hc].
    rewrite Hc.
    set (s1 := nextChainedRequest (pre ++ e :: e' :: post) (setCore s c)).
    assert (nth_error (pre ++ e :: e' :: post) (S (List.length pre)) = Some e')
      as Hnth.
    { replace (pre ++ e :: e' :: post) with ((pre ++ [e]) ++ e' :: post)
        by (rewrite <- app_assoc; reflexivity).
      replace (S (List.length pre)) with (List.length (pre ++ [e]))
        by (rewrite length_app; cbn; lia).
      apply nth_error_middle. }
    assert (chainIndex s1 = S (List.length (pre ++ [e])) /\
            calls s1 = calls s ++ [callOf e'] /\
            replies s1 = replies s ++ [replyOf e'] /\
            missedSamples s1 = missedSamples s) as (Hidx1 & Hc1 & Hr1 & Hm1).
    { subst s1. unfold nextChainedRequest. cbn [setCore chainIndex].
      rewrite Hidx, Hnth, length_app. cbn. repeat split. lia. }
    assert (List.length payloads = S (List.length post)) as Hlen1
      by (cbn in Hlen; lia).
    pose proof (IH (pre ++ [e]) e' s1 payloads Hidx1 Hlen1) as H.
    cbv zeta in H. rewrite <- app_assoc in H. cbn [app] in H.
    rewrite length_app in H. cbn [List.length] in H.
    replace (List.length pre + 1)%nat with (S (List.length pre)) in H by lia.
    unfold run in H.
    destruct H as (Hcalls & Hreplies & Hci & Hbusy & Hmissed).
    rewrite Hcalls, Hreplies, Hci, Hbusy, Hmissed, Hc1, Hr1, Hm1.
    cbn [map]. rewrite <- !app_assoc. repeat split.
Qed.

(** A whole cycle: from an idle scheduler, a tick and then the reply of
    each step in turn issue the call of every entry of the chain once, in
    the order of the chain, whatever the handlers do with the replies, and
    leave the scheduler idle with one reply per step and the missed-sample
    counter as it was. *)
Theorem run_full_cycle (commandChain : list ChainEntry) (DEBUG : bool)
    (s : MainWindow) (payloads : list (Data * Q))
    (Hidle : busy s = false)
    (Hlen : List.length payloads = List.length commandChain) :
  let s' := run commandChain DEBUG s (Tick :: finishedFrom 0 payloads) in
  calls s' = calls s ++ map callOf commandChain /\
  replies s' = map replyOf commandChain /\
  chainIndex s' = List.length commandChain /\
  busy s' = false /\
  missedSamples s' = missedSamples s.
Proof.
  cbv zeta. cbn [run fold_left step]. unfold update. rewrite Hidle.
  unfold startChain, nextChainedRequest. cbn [chainIndex].
  destruct commandChain as [|e post].
  - destruct payloads; [|discriminate]. cbn. rewrite app_nil_r. repeat split.
  - cbn [nth_error].
    match goal with
    | |- context [fold_left _ _ ?st] => set (s1 := st)
    end.
    pose proof (run_finished_from DEBUG post [] e s1 payloads eq_refl Hlen) as H.
    cbv zeta in H. unfold run in H. cbn [List.length app] in H.
    destruct H as (Hcalls & Hreplies & Hci & Hbusy & Hmissed).
    rewrite Hcalls, Hreplies, Hci, Hbusy, Hmissed. subst s1.
    cbn [calls replies missedSamples map app]. rewrite <- app_assoc.
    repeat split.
Qed.

Lemma run_full_cycle_witness :
  busy init = false /\
  List.length [(infoOf 8 100, 1%Q); (infoOf 8 100, 2%Q); (malformedInfo, 3%Q)]
  = List.length threeStepChain /\
  calls (run threeStepChain false init
           (Tick :: finishedFrom 0
              [(infoOf 8 100, 1%Q); (infoOf 8 100, 2%Q); (malformedInfo, 3%Q)]))
  = calls init ++ map callOf threeStepChain.
Proof.
  split; [reflexivity|]. split; [reflexivity|].
  exact (proj1 (run_full_cycle threeStepChain false init
                  [(infoOf 8 100, 1%Q); (infoOf 8 100, 2%Q); (malformedInfo, 3%Q)]
                  eq_refl eq_refl)).
Defined.

Lemma firstn_S_nth_error {A : Type} (l : list A) (k : nat) (x : A) :
  nth_error l k = Some x -> firstn (S k) l = firstn k l ++ [x].
Proof.
  revert l. induction k as [|k IH]; intros [|y l] H; try discriminate.
  - injection H as ->. reflexivity.
  - cbn [firstn app]. f_equal. apply IH. exact H.
Qed.

Lemma nextChainedRequest_consistent (commandChain : list ChainEntry)
    (s : MainWindow) (c : Core) :
  chain_consistent commandChain s ->
  chain_consistent commandChain (nextChainedRequest commandChain (setCore s c)).
Proof.
  intros (Hlen & Hle & Hmap). unfold nextChainedRequest, chain_consistent.
  cbn [setCore chainIndex replies].
  destruct (nth_error commandChain (chainIndex s)) as [e|] eqn:E;
    cbn [chainIndex replies]; [|auto].
  assert (chainIndex s < List.length commandChain)%nat as Hlt
    by (apply nth_error_Some; congruence).
  rewrite length_app, map_app, (firstn_S_nth_error _ _ _ E), map_app, Hmap.
  cbn. repeat split; lia.
Qed.

Lemma step_consistent (commandChain : list ChainEntry) (DEBUG : bool)
    (s : MainWindow) (ev : Event) :
  chain_consistent commandChain s ->
  chain_consistent commandChain (step commandChain DEBUG s ev).
Proof.
  intros H. destruct ev as [|k data now|err now]; cbn [step].
  - unfold update. destruct (busy s); [exact H|].
    unfold startChain.
    match goal with
    | |- chain_consistent _ (nextChainedRequest _ ?st) =>
        change st with (setCore st (core s))
    end.
    apply nextChainedRequest_consistent.
    unfold chain_consistent. cbn. repeat split. lia.
  - destruct (nth_error commandChain k) as [e|]; [|exact H].
    destruct (handlerWrapper_scheduler commandChain (responseHandler e) s data now)
      as [c ->].
    apply nextChainedRequest_consistent. exact H.
  - exact H.
Qed.

(** Whatever events arrive, in whatever order, the scheduler started by
    [__init__] holds one reply object for each step issued in the running
    chain, in the order of the chain, and its step index never passes the
    end of the chain. *)
Theorem run_keeps_replies (commandChain : list ChainEntry) (DEBUG : bool)
    (evs : list Event) :
  let s := run commandChain DEBUG init evs in
  chainIndex s = List.length (replies s) /\
  (chainIndex s <= List.length commandChain)%nat /\
  map r_method (replies s) = map method (firstn (chainIndex s) commandChain).
Proof.
  cbv zeta. change (chain_consistent commandChain (run commandChain DEBUG init evs)).
  assert (forall s, chain_consistent commandChain s ->
                    chain_consistent commandChain (run commandChain DEBUG s evs))
    as H.
  { unfold run. induction evs as [|ev evs IH]; intros s Hs; [exact Hs|].
    cbn [fold_left]. apply IH, step_consistent, Hs. }
  apply H. unfold chain_consistent. cbn. repeat split. lia.
Qed.

(** Ticks that find the scheduler busy only count: [n] of them add [n] to
    the missed-sample counter, make no call, and leave the chain where it
    is. *)
Theorem run_overlapping_ticks (commandChain : list ChainEntry) (DEBUG : bool)
    (s : MainWindow) (n : nat) (Hbusy : busy s = true) :
  let s' := run commandChain DEBUG s (repeat Tick n) in
  missedSamples s' = (missedSamples s + n)%nat /\
  calls s' = calls s /\
  chainIndex s' = chainIndex s /\
  replies s' = replies s /\
  busy s' = true.
Proof.
  cbv zeta. revert s Hbusy. induction n as [|n IH]; intros s Hbusy.
  - cbn. repeat split; auto.
  - cbn [repeat run fold_left step]. unfold update. rewrite Hbusy.
    match goal with
    | |- context [fold_left _ _ ?st] => set (s1 := st)
    end.
    assert (busy s1 = true) as Hb1 by reflexivity.
    destruct (IH s1 Hb1) as (Hm & Hc & Hi & Hr & Hb). unfold run in *.
    rewrite Hm, Hc, Hi, Hr, Hb. subst s1. cbn. repeat split. lia.
Qed.

Lemma run_overlapping_ticks_witness :
  busy (update threeStepChain init) = true /\
  missedSamples (run threeStepChain false (update threeStepChain init)
                   (repeat Tick 5))
  = (missedSamples (update threeStepChain init) + 5)%nat.
Proof.
  split; [reflexivity|].
  exact (proj1 (run_overlapping_ticks threeStepChain false
                  (update threeStepChain init) 5 eq_refl)).
Defined.

(** After a transport error the next tick does not resume the truncated
    chain: it starts over at step 0, with the reply objects of the failed
    cycle dropped, wherever that cycle had got to. *)
Theorem run_restart_after_error (e : ChainEntry) (rest : list ChainEntry)
    (DEBUG : bool) (s : MainWindow) (err_str : string) (now : Z) :
  let s' := run (e :: rest) DEBUG s [Error err_str now; Tick] in
  calls s' = calls s ++ [callOf e] /\
  replies s' = [replyOf e] /\
  chainIndex s' = 1%nat /\
  busy s' = true /\
  missedSamples s' = missedSamples s.
Proof. cbv zeta. cbn. repeat split. Qed.

(** ** The block state over runs of replies *)

Lemma removelast_length_S {A : Type} (x : A) (l : list A) :
  S (List.length (removelast (x :: l))) = List.length (x :: l).
Proof.
  revert x. induction l as [|y l IH]; intros x; [reflexivity|].
  change (removelast (x :: y :: l)) with (x :: removelast (y :: l)).
  cbn [List.length]. f_equal. apply IH.
Qed.

Lemma update_length (r : RRA.t) (v : Q) :
  List.length (RRA.update r v) = List.length r.
Proof.
  destruct r as [|x r]; [reflexivity|]. unfold RRA.update.
  cbn [List.length]. apply removelast_length_S.
Qed.

Lemma updateInfo_block_step (c : Core) (info : Data) (now : Q) :
  let c' := core_of (updateInfo c info now) in
  List.length (blockRecvTimes c') = List.length (blockRecvTimes c) /\
  trafRecv c' = trafRecv c /\ trafSent c' = trafSent c /\
  trafRRD c' = trafRRD c /\
  match lastBlockCount c with
  | Some n => exists m, lastBlockCount c' = Some m /\ n <= m
  | None => True
  end.
Proof.
  cbv zeta. unfold updateInfo.
  destruct (lookup "connections" info) as [conns|]; cbn [core_of].
  - destruct (lookup "blocks" info) as [blocks|]; cbn [core_of].
    + unfold observeBlocks, setSink. cbn [lastBlockCount blockRecvTimes].
      destruct (lastBlockCount c) as [n|] eqn:E; cbn; [|repeat split].
      destruct (blocks >? n) eqn:G; cbn.
      * rewrite update_length. repeat split.
        exists blocks. split; [reflexivity|]. apply Z.gtb_lt in G. lia.
      * repeat split. exists n. split; [first [assumption|reflexivity]|lia].
    + cbn. repeat split. destruct (lastBlockCount c) as [n|]; [|exact I].
      exists n. split; [reflexivity|lia].
  - repeat split. destruct (lastBlockCount c) as [n|]; [|exact I].
    exists n. split; [reflexivity|lia].
Qed.

(** Whatever replies [updateInfo] is fed, well-formed or not: the block
    window keeps its capacity, a block count once seen is never replaced by
    a smaller one, and the traffic buffers and the archive are not
    touched. *)
Theorem feedReplies_block_state (c : Core) (rs : list (Data * Q)) :
  let c' := feedReplies c rs in
  List.length (blockRecvTimes c') = List.length (blockRecvTimes c) /\
  trafRecv c' = trafRecv c /\ trafSent c' = trafSent c /\
  trafRRD c' = trafRRD c /\
  match lastBlockCount c with
  | Some n => exists m, lastBlockCount c' = Some m /\ n <= m
  | None => True
  end.
Proof.
  cbv zeta. revert c. induction rs as [|[info now] rs IH]; intros c.
  - cbn. repeat split. destruct (lastBlockCount c) as [n|]; [|exact I].
    exists n. split; [reflexivity|lia].
  - cbn [feedReplies].
    destruct (updateInfo_block_step c info now) as (L1 & R1 & S1 & A1 & B1).
    destruct (IH (core_of (updateInfo c info now))) as (L2 & R2 & S2 & A2 & B2).
    rewrite L2, R2, S2, A2, L1, R1, S1, A1. repeat split.
    destruct (lastBlockCount c) as [n|]; [|exact I].
    destruct B1 as (m & Hm & Hnm). rewrite Hm in B2.
    destruct B2 as (k & Hk & Hmk). exists k. split; [exact Hk|lia].
Qed.

Lemma feedInfo_from_seen (polls : list (Z * Q)) :
  forall c n, lastBlockCount c = Some n ->
    lastBlockCount (feedInfo c polls)
    = Some (fold_left Z.max (map fst polls) n).
Proof.
  induction polls as [|[blocks now] polls IH]; intros c n Hn; [exact Hn|].
  cbn [feedInfo map fst fold_left]. apply IH.
  unfold updateInfo, infoOf. cbn [lookup String.eqb Ascii.eqb Bool.eqb core_of].
  unfold observeBlocks, setSink. cbn [lastBlockCount]. rewrite Hn.
  destruct (blocks >? n) eqn:G; cbn [lastBlockCount].
  - apply Z.gtb_lt in G. f_equal. lia.
  - rewrite Z.gtb_ltb in G. apply Z.ltb_ge in G. f_equal. lia.
Qed.

(** The last-seen block count after a run of well-formed polls is the
    largest count of the run (and of the count held before, if any): a dip
    of the reported count is forgotten, and only a count above the old peak
    is seen as new. *)
Theorem feedInfo_lastBlockCount_is_peak (c : Core) (polls : list (Z * Q)) :
  lastBlockCount (feedInfo c polls)
  = match lastBlockCount c, polls with
    | Some n, _ => Some (fold_left Z.max (map fst polls) n)
    | None, [] => None
    | None, (blocks, _) :: rest => Some (fold_left Z.max (map fst rest) blocks)
    end.
Proof.
  destruct (lastBlockCount c) as [n|] eqn:E.
  - apply feedInfo_from_seen. exact E.
  - destruct polls as [|[blocks now] rest]; [exact E|].
    cbn [feedInfo]. apply feedInfo_from_seen.
    unfold updateInfo, infoOf. cbn [lookup String.eqb Ascii.eqb Bool.eqb core_of].
    unfold observeBlocks, setSink. cbn [lastBlockCount]. rewrite E. reflexivity.
Qed.

(** ** More on the series merge *)

Lemma differences_length (r : RRA.t) :
  List.length r = traf_samples -> List.length (RRA.differences r 0) = 599%nat.
Proof.
  intros Hr. unfold RRA.differences. rewrite length_map, length_seq, Hr.
  reflexivity.
Qed.

(** The three lists that the merge hands to the plot items have one length,
    when the two ring buffers have the capacity that [_setupPlots] gives
    them: each age comes with a received and a sent value. *)
Theorem mergeSeries_lengths (c : Core) (now : Z)
    (Hrecv : List.length (trafRecv c) = traf_samples)
    (Hsent : List.length (trafSent c) = traf_samples) :
  let out := mergeSeries c now in
  List.length (s_recv out) = List.length (s_ages out) /\
  List.length (s_sent out) = List.length (s_ages out) /\
  List.length (s_ages out)
  = (List.length (keptBuckets now (snd (oldestFullRes (trafRecv c))) (trafRRD c))
     + (599 - fst (oldestFullRes (trafRecv c))))%nat.
Proof.
  cbv zeta. rewrite mergeSeries_mergedFrom. unfold mergedFrom.
  destruct (oldestFullRes_in_domain (trafRecv c)) as [Hidx _].
  pose proof (differences_length _ Hrecv) as Dr.
  pose proof (differences_length _ Hsent) as Ds.
  pose proof trafPlotDomain_length as Dd.
  destruct (stopBucket now (snd (oldestFullRes (trafRecv c))) (trafRRD c));
    destruct (keptBuckets now (snd (oldestFullRes (trafRecv c))) (trafRRD c))
      as [|k ks];
    cbn [s_ages s_recv s_sent];
    rewrite ?length_app, ?length_map, ?length_skipn, ?Dr, ?Ds, ?Dd;
    cbn [List.length]; repeat split; lia.
Qed.

Lemma mergeSeries_lengths_witness :
  List.length (trafRecv straddleExample) = traf_samples /\
  List.length (trafSent straddleExample) = traf_samples /\
  List.length (s_recv (mergeSeries straddleExample 1000))
  = List.length (s_ages (mergeSeries straddleExample 1000)).
Proof.
  split; [reflexivity|]. split; [reflexivity|].
  exact (proj1 (mergeSeries_lengths straddleExample 1000 eq_refl eq_refl)).
Defined.

Lemma mergeSeries_ages (c : Core) (now : Z) :
  s_ages (mergeSeries c now)
  = map (b_age now) (keptBuckets now (snd (oldestFullRes (trafRecv c))) (trafRRD c))
    ++ skipn (fst (oldestFullRes (trafRecv c))) trafPlotDomain.
Proof.
  destruct (oldestFullRes_in_domain (trafRecv c)) as [Hidx Ha].
  rewrite mergeSeries_mergedFrom. unfold mergedFrom.
  destruct (stopBucket now (snd (oldestFullRes (trafRecv c))) (trafRRD c));
    destruct (keptBuckets now (snd (oldestFullRes (trafRecv c))) (trafRRD c))
      as [|k ks]; cbn [s_ages]; try reflexivity.
  rewrite (skipn_cons_nth (fst (oldestFullRes (trafRecv c))) trafPlotDomain)
    by (rewrite trafPlotDomain_length; exact Hidx).
  rewrite <- Ha. reflexivity.
Qed.

(** No point of the merged series has a negative age: every bucket that
    the merge keeps is stamped before the merge's clock, so a bucket stamped
    at or after it is never plotted. *)
Theorem mergeSeries_ages_nonnegative (c : Core) (now : Z) :
  Forall (fun x => 0 <= x) (s_ages (mergeSeries c now)) /\
  Forall (fun b => b_time b < now)
         (keptBuckets now (snd (oldestFullRes (trafRecv c))) (trafRRD c)).
Proof.
  destruct (oldestFullRes_in_domain (trafRecv c)) as [Hidx Ha].
  assert (0 <= snd (oldestFullRes (trafRecv c))) as Hpos
    by (rewrite Ha, trafPlotDomain_nth by exact Hidx; lia).
  pose proof (keptBuckets_above now (snd (oldestFullRes (trafRecv c))) (trafRRD c))
    as Habove.
  split.
  - rewrite mergeSeries_ages. apply Forall_app. split.
    + apply Forall_map. eapply Forall_impl; [|exact Habove].
      intros b Hb. cbv beta in Hb. lia.
    + apply Forall_forall. intros x Hin.
      destruct (In_nth _ _ 0 Hin) as (i & Hi & <-).
      rewrite length_skipn, trafPlotDomain_length in Hi.
      rewrite nth_skipn_Z, trafPlotDomain_nth by lia. lia.
  - eapply Forall_impl; [|exact Habove].
    intros b Hb. cbv beta in Hb. unfold b_age, ageOfTime in Hb. lia.
Qed.

Lemma kept_stop_prefix (now a : Z) (stop : Bucket) (pre rest : list Bucket) :
  b_age now stop <= a ->
  keptBuckets now a (pre ++ stop :: rest) = keptBuckets now a (pre ++ [stop]) /\
  stopBucket now a (pre ++ stop :: rest) = stopBucket now a (pre ++ [stop]).
Proof.
  intros Hstop. induction pre as [|b pre IH]; cbn [app keptBuckets stopBucket].
  - replace (b_age now stop >? a) with false; [split; reflexivity|].
    symmetry. rewrite Z.gtb_ltb. apply Z.ltb_ge. exact Hstop.
  - destruct (b_age now b >? a); [|split; reflexivity].
    destruct IH as [-> ->]. split; reflexivity.
Qed.

(** What the archive yields after the bucket at which the second loop
    breaks has no influence on the series: the merge reads the archive no
    further than its first bucket at or below the boundary age. *)
Theorem mergeSeries_ignores_rest (c : Core) (now : Z) (stop : Bucket)
    (pre rest rest' : list Bucket)
    (Hstop : b_age now stop <= snd (oldestFullRes (trafRecv c))) :
  mergeSeries (withArchive c (pre ++ stop :: rest)) now
  = mergeSeries (withArchive c (pre ++ stop :: rest')) now.
Proof.
  rewrite !mergeSeries_mergedFrom. unfold mergedFrom, withArchive.
  cbn [trafRecv trafSent trafRRD].
  destruct (kept_stop_prefix now _ stop pre rest Hstop) as [-> ->].
  destruct (kept_stop_prefix now _ stop pre rest' Hstop) as [-> ->].
  reflexivity.
Qed.

Lemma mergeSeries_ignores_rest_witness :
  b_age 1000 (mkBucket 470 (Some 160%Q, None))
  <= snd (oldestFullRes (trafRecv boundaryExample)) /\
  mergeSeries (withArchive boundaryExample
                 ([mkBucket 350 (Some 100%Q, Some 100%Q)]
                  ++ mkBucket 470 (Some 160%Q, None) :: [])) 1000
  = mergeSeries (withArchive boundaryExample
                   ([mkBucket 350 (Some 100%Q, Some 100%Q)]
                    ++ mkBucket 470 (Some 160%Q, None)
                       :: [mkBucket 200 (Some 7%Q, Some 7%Q)])) 1000.
Proof.
  assert (b_age 1000 (mkBucket 470 (Some 160%Q, None))
          <= snd (oldestFullRes (trafRecv boundaryExample))) as H
    by (vm_compute; discriminate).
  split; [exact H|].
  exact (mergeSeries_ignores_rest boundaryExample 1000
           (mkBucket 470 (Some 160%Q, None))
           [mkBucket 350 (Some 100%Q, Some 100%Q)] []
           [mkBucket 200 (Some 7%Q, Some 7%Q)] H).
Defined.

(** With nothing in the archive the series is the full-resolution data
    alone, from the boundary index on: no archive point and no blended
    point. *)
Theorem mergeSeries_empty_archive (c : Core) (now : Z)
    (Hempty : trafRRD c = []) :
  let idx := fst (oldestFullRes (trafRecv c)) in
  s_ages (mergeSeries c now) = skipn idx trafPlotDomain /\
  s_recv (mergeSeries c now) = skipn idx (RRA.differences (trafRecv c) 0) /\
  s_sent (mergeSeries c now) = skipn idx (RRA.differences (trafSent c) 0).
Proof.
  cbv zeta. rewrite mergeSeries_mergedFrom. unfold mergedFrom.
  rewrite Hempty. cbn. repeat split.
Qed.

Lemma mergeSeries_empty_archive_witness :
  trafRRD initCore = [] /\
  s_ages (mergeSeries initCore 1000)
  = skipn (fst (oldestFullRes (trafRecv initCore))) trafPlotDomain.
Proof.
  split; [reflexivity|].
  exact (proj1 (mergeSeries_empty_archive initCore 1000 eq_refl)).
Defined.



(** ** load_config *)

Lemma parse_args_cons (debug0 : bool) (prog : string) (args : list string) :
  parse_args debug0 (prog :: args) = fold_left parse_arg args (args0 debug0).
Proof. reflexivity. Qed.

(** The last [-datadir=] or [-conf=] of the command line wins, and its
    value is everything after the first '=', be it empty or with further
    '=' signs in it; nothing else changes and no warning is written. *)
Theorem parse_args_last_wins (debug0 : bool) (prog : string)
    (args : list string) (v : string) :
  let before := parse_args debug0 (prog :: args) in
  let d := parse_args debug0 (prog :: args ++ [("-datadir=" ++ v)%string]) in
  let f := parse_args debug0 (prog :: args ++ [("-conf=" ++ v)%string]) in
  (a_datadir d = Some v /\ a_conffile d = a_conffile before /\
   a_testnet d = a_testnet before /\ a_debug d = a_debug before /\
   a_warnings d = a_warnings before) /\
  (a_conffile f = v /\ a_datadir f = a_datadir before /\
   a_testnet f = a_testnet before /\ a_debug f = a_debug before /\
   a_warnings f = a_warnings before).
Proof.
  cbv zeta. rewrite !parse_args_cons, !fold_left_app. cbn [fold_left].
  split; repeat split.
Qed.

(** Option forms that the loop does not take change nothing but the
    warnings: [-datadir] and [-conf] without '=', and the three flags when
    given a value, which are reported as unknown arguments. *)
Theorem parse_arg_rejects (st : Args) (v : string) :
  parse_arg st "-datadir" = warn st EmptyDatadir /\
  parse_arg st "-conf" = warn st EmptyConf /\
  parse_arg st ("-testnet=" ++ v)
  = warn st (UnknownArgument ("-testnet=" ++ v)) /\
  parse_arg st ("-d=" ++ v) = warn st (UnknownArgument ("-d=" ++ v)) /\
  parse_arg st ("-debug=" ++ v) = warn st (UnknownArgument ("-debug=" ++ v)).
Proof. repeat split. Qed.

Lemma parse_arg_flags (st : Args) (arg : string) :
  a_debug (parse_arg st arg) = a_debug st || isDebugFlag arg /\
  a_testnet (parse_arg st arg) = a_testnet st || isTestnetFlag arg.
Proof.
  unfold isDebugFlag, isTestnetFlag.
  destruct (String.eqb arg "-testnet") eqn:T.
  { apply String.eqb_eq in T. subst arg. cbn.
    rewrite orb_false_r, orb_true_r. split; reflexivity. }
  destruct (String.eqb arg "-d") eqn:D1.
  { apply String.eqb_eq in D1. subst arg. cbn.
    rewrite orb_false_r, orb_true_r. split; reflexivity. }
  destruct (String.eqb arg "-debug") eqn:D2.
  { apply String.eqb_eq in D2. subst arg. cbn.
    rewrite orb_false_r, orb_true_r. split; reflexivity. }
  unfold parse_arg. rewrite T, D1, D2. cbn [orb].
  destruct (String.eqb (fst (split_eq arg)) "-datadir");
    [destruct (snd (split_eq arg)); cbn; rewrite !orb_false_r; split; reflexivity|].
  destruct (String.eqb (fst (split_eq arg)) "-conf");
    [destruct (snd (split_eq arg)); cbn; rewrite !orb_false_r; split; reflexivity|].
  cbn. rewrite !orb_false_r. split; reflexivity.
Qed.

Lemma fold_parse_arg_flags (args : list string) :
  forall st,
    a_debug (fold_left parse_arg args st)
    = a_debug st || existsb isDebugFlag args /\
    a_testnet (fold_left parse_arg args st)
    = a_testnet st || existsb isTestnetFlag args.
Proof.
  induction args as [|arg args IH]; intros st; cbn [fold_left existsb].
  - rewrite !orb_false_r. split; reflexivity.
  - destruct (IH (parse_arg st arg)) as [-> ->].
    destruct (parse_arg_flags st arg) as [-> ->].
    rewrite !orb_assoc. split; reflexivity.
Qed.

(** [DEBUG] is set by [-d] or [-debug] and is never cleared: after the loop
    it holds exactly when it held before or one of the arguments after the
    program name is such a flag; [testnet] holds exactly when one of them is
    [-testnet].  The program name itself is never read as an option. *)
Theorem parse_args_flags (debug0 : bool) (argv : list string) :
  a_debug (parse_args debug0 argv) = debug0 || existsb isDebugFlag (tl argv) /\
  a_testnet (parse_args debug0 argv) = existsb isTestnetFlag (tl argv).
Proof.
  unfold parse_args.
  destruct (fold_parse_arg_flags (tl argv) (args0 debug0)) as [-> ->].
  split; reflexivity.
Qed.

(** ** eventFilter *)

(** [eventFilter] never consumes an event and touches nothing but the menu
    bar's visibility; with a menu bar of non-negative height a hover
    position settles it: the same event again changes nothing more, so the
    bar does not flicker under a resting pointer. *)
Theorem eventFilter_settles (w : Chrome) (event : QEvent)
    (Hheight : 0 <= menuBarHeight w) :
  let w' := fst (eventFilter w event) in
  snd (eventFilter w event) = false /\
  fst (eventFilter w' event) = w' /\
  isFullScreen w' = isFullScreen w /\
  eventFilterInstalled w' = eventFilterInstalled w /\
  logoVisible w' = logoVisible w /\
  menuBarHeight w' = menuBarHeight w.
Proof.
  cbv zeta. destruct w as [fs wfs inst logo vis h].
  cbn [menuBarHeight] in Hheight.
  destruct event as [y|]; [|repeat split].
  unfold eventFilter, setMenuBarVisible.
  cbn [menuBarVisible menuBarHeight isFullScreen eventFilterInstalled
       logoVisible windowFullScreen fst snd].
  destruct vis.
  - destruct (Z.gtb_spec y h) as [G|G].
    + cbn [menuBarVisible menuBarHeight isFullScreen eventFilterInstalled
           logoVisible windowFullScreen fst snd].
      destruct (Z.ltb_spec y 1) as [L|L]; [exfalso; lia|].
      cbn [fst snd menuBarVisible]. repeat split.
    + cbn [menuBarVisible menuBarHeight isFullScreen eventFilterInstalled
           logoVisible windowFullScreen fst snd].
      destruct (Z.gtb_spec y h) as [G'|G']; [exfalso; lia|].
      repeat split.
  - destruct (Z.ltb_spec y 1) as [L|L].
    + cbn [menuBarVisible menuBarHeight isFullScreen eventFilterInstalled
           logoVisible windowFullScreen fst snd].
      destruct (Z.gtb_spec y h) as [G|G]; [exfalso; lia|].
      repeat split.
    + cbn [menuBarVisible menuBarHeight isFullScreen eventFilterInstalled
           logoVisible windowFullScreen fst snd].
      destruct (Z.ltb_spec y 1) as [L'|L']; [exfalso; lia|].
      repeat split.
Qed.

Lemma eventFilter_settles_witness :
  0 <= menuBarHeight chromeExample /\
  snd (eventFilter chromeExample (HoverMove 40)) = false /\
  menuBarVisible (fst (eventFilter chromeExample (HoverMove 40))) = false.
Proof.
  assert (0 <= menuBarHeight chromeExample) as H by (cbn; lia).
  split; [exact H|]. split; [|reflexivity].
  exact (proj1 (eventFilter_settles chromeExample (HoverMove 40) H)).
Defined.

(** ** toggleFullScreen *)

Lemma eventFilter_keeps (w : Chrome) (event : QEvent) :
  let w' := fst (eventFilter w event) in
  isFullScreen w' = isFullScreen w /\
  windowFullScreen w' = windowFullScreen w /\
  eventFilterInstalled w' = eventFilterInstalled w /\
  logoVisible w' = logoVisible w /\
  menuBarHeight w' = menuBarHeight w.
Proof.
  cbv zeta. destruct event as [y|]; [|repeat split].
  unfold eventFilter.
  destruct (menuBarVisible w); [destruct (y >? menuBarHeight w)
                               |destruct (y <? 1)]; repeat split.
Qed.

Lemma hover_keeps (events : list QEvent) (w : Chrome) :
  let w' := fold_left (fun w e => fst (eventFilter w e)) events w in
  isFullScreen w' = isFullScreen w /\
  windowFullScreen w' = windowFullScreen w /\
  eventFilterInstalled w' = eventFilterInstalled w /\
  logoVisible w' = logoVisible w /\
  menuBarHeight w' = menuBarHeight w.
Proof.
  cbv zeta. revert w. induction events as [|e rest IH]; intros w.
  - repeat split.
  - cbn [fold_left].
    destruct (IH (fst (eventFilter w e))) as (A & B & C & D & E).
    destruct (eventFilter_keeps w e) as (A' & B' & C' & D' & E').
    rewrite A, B, C, D, E. repeat split; assumption.
Qed.

(** Whatever hover events [eventFilter] sees in full-screen mode, the window
    stays full screen with the filter installed and the logo shown, and
    leaving full-screen mode gives the same window as leaving it at once:
    the menu bar is back, also when the pointer had hidden it. *)
Theorem toggleFullScreen_restores (w : Chrome) (events : list QEvent) :
  let hovered := fold_left (fun w e => fst (eventFilter w e)) events
                           (toggleFullScreen w true) in
  isFullScreen hovered = true /\
  eventFilterInstalled hovered = true /\
  logoVisible hovered = true /\
  toggleFullScreen hovered false = toggleFullScreen w false /\
  menuBarVisible (toggleFullScreen hovered false) = true.
Proof.
  cbv zeta.
  destruct (hover_keeps events (toggleFullScreen w true))
    as (A & _ & C & D & E).
  split; [exact A|]. split; [exact C|]. split; [exact D|].
  split; [|reflexivity].
  unfold toggleFullScreen at 1 3. rewrite E. reflexivity.
Qed.

(** ** updateMemPool *)

Lemma Qceiling_zero (x : Q) : Qceiling x = 0 <-> (-1 < x /\ x <= 0)%Q.
Proof.
  pose proof (Qle_ceiling x) as U. pose proof (Qceiling_lt x) as L.
  split.
  - intros H. rewrite H in U, L. split; [exact L|exact U].
  - intros [L' U'].
    assert (inject_Z (Qceiling x - 1) < inject_Z 0)%Q as A
      by (eapply Qlt_le_trans; [exact L|exact U']).
    assert (inject_Z (-1) < inject_Z (Qceiling x))%Q as B
      by (eapply Qlt_le_trans; [exact L'|exact U]).
    rewrite <- Zlt_Qlt in A, B. lia.
Qed.

(** Bounds on a size in thousands, by linear arithmetic. *)
Ltac kilobytes :=
  unfold Qdiv in *; change (/ 1000)%Q with (1 # 1000)%Q in *;
  repeat split; lra.

(** The fee per kilobyte divides by zero exactly for a transaction
    whose size lies in (-1000, 0]: its kilobytes round up to zero. *)
Theorem feePerKB_zero_division (tx : Tx) :
  feePerKB tx = None <-> (-1000 < tx_size tx /\ tx_size tx <= 0)%Q.
Proof.
  unfold feePerKB. cbv zeta.
  destruct (Z.eqb_spec (Qceiling (tx_size tx / 1000)) 0) as [E|E].
  - split; [intros _|reflexivity].
    apply Qceiling_zero in E. destruct E as [A B]. kilobytes.
  - split; [discriminate|]. intros [A B]. exfalso. apply E.
    apply Qceiling_zero. kilobytes.
Qed.




Lemma plotTransactions_raises (m : Z) (now : Q) (pool : list Tx) (tx : Tx) :
  In tx pool -> feePerKB tx = None -> plotTransactions m now pool = None.
Proof.
  intros I F. induction pool as [|a rest IH]; [destruct I|].
  cbn [plotTransactions]. destruct I as [->|I].
  - rewrite F. reflexivity.
  - destruct (feePerKB a); [rewrite (IH I)|]; reflexivity.
Qed.



(** One transaction whose size lies in (-1000, 0] makes
    [updateMemPool] raise: the traffic plot has been redrawn by then, the
    pool plot is left as it was, whatever the other transactions are. *)
Theorem updateMemPool_bad_transaction (COIN : Z) (c : Core)
    (pool : list Tx) (nowInt : Z) (now : Q) (tx : Tx)
    (Hin : In tx pool)
    (Hsize : (-1000 < tx_size tx /\ tx_size tx <= 0)%Q) :
  updateMemPool COIN c pool nowInt now
  = (Raised (plotNetTotals c nowInt), None).
Proof.
  unfold updateMemPool. cbv zeta.
  rewrite (plotTransactions_raises _ now pool tx Hin); [reflexivity|].
  unfold feePerKB. cbv zeta.
  replace (Qceiling (tx_size tx / 1000)) with 0; [reflexivity|].
  symmetry. apply Qceiling_zero. destruct Hsize. kilobytes.
Qed.

Lemma updateMemPool_bad_transaction_witness :
  In (mkTx 1 0 990 0) [mkTx 3 2500 990 0; mkTx 1 0 990 0] /\
  (-1000 < tx_size (mkTx 1 0 990 0) /\ tx_size (mkTx 1 0 990 0) <= 0)%Q /\
  updateMemPool 100000000 coldExample
                [mkTx 3 2500 990 0; mkTx 1 0 990 0] 1000 1000
  = (Raised (plotNetTotals coldExample 1000), None).
Proof.
  assert (In (mkTx 1 0 990 0) [mkTx 3 2500 990 0; mkTx 1 0 990 0]) as I
    by (right; left; reflexivity).
  assert (-1000 < tx_size (mkTx 1 0 990 0)
          /\ tx_size (mkTx 1 0 990 0) <= 0)%Q as S
    by (split; [reflexivity|discriminate]).
  split; [exact I|]. split; [exact S|].
  exact (updateMemPool_bad_transaction 100000000 coldExample _ 1000 1000
           _ I S).
Defined.


